(** * zod-currency: currency-code providers and the schema factory

    A shallow embedding of [providers.ts] (FiatCurrencyProvider,
    CryptocurrencyProvider, MultiCurrencyProvider) and of [currency.ts]
    (createCurrencySchema), followed by the properties of the
    specification that concern them; then of the computations of
    [tools/max-currency-length.js] and of the two providers of
    [examples/custom-providers.js], with further properties of the code.

    Conventions of the embedding.
    - A JavaScript [number] is an IEEE 754 binary64 value, written as a
      [spec_float] of the standard library.  A finite term [m * 2^e] is
      read through the real number it denotes: comparisons, [Math.floor]
      and [Number.isInteger] are exact on that value, and the product is
      the exact product rounded to nearest-even by [binary_round].
    - A JavaScript string is a [string]; [.length] is [String.length].
    - A [Set<string>] is the list of its elements in insertion order.
    - A constructor that may [throw] returns a [completion].
    - The host functions [String.prototype.toUpperCase] and
      [Number::toString], and the two external tables
      ([currency-codes], [cryptocurrencies]) are parameters. *)

From Stdlib Require Import ZArith String Ascii.
From Stdlib Require Import Floats.SpecFloat.
From stdpp Require Import base decidable list strings gmap sorting.

Local Open Scope Z_scope.

(** ** Numbers *)

Module Number.

Definition number := spec_float.

Definition prec : Z := 53.
Definition emax : Z := 1024.

Definition NaN : number := S754_nan.
Definition Infinity : number := S754_infinity false.
Definition NegInfinity : number := S754_infinity true.

(** The integer [z] as a number (exact: the mantissa is [|z|], the
    exponent [0]). *)
Definition of_Z (z : Z) : number :=
  match z with
  | Z0 => S754_zero false
  | Zpos p => S754_finite false p 0
  | Zneg p => S754_finite true p 0
  end.

(** The value of [.length] and of small integer literals. *)
Definition of_nat (n : nat) : number := of_Z (Z.of_nat n).

(** A finite number is the dyadic rational [signed s m * 2^e]. *)
Definition signed (s : bool) (m : positive) : Z := cond_Zopp s (Zpos m).

Definition parts (x : number) : option (Z * Z) :=
  match x with
  | S754_zero _ => Some (0, 0)
  | S754_finite s m e => Some (signed s m, e)
  | _ => None
  end.

Definition compare_parts (a b : Z * Z) : comparison :=
  let e := Z.min (snd a) (snd b) in
  Z.compare (fst a * 2 ^ (snd a - e)) (fst b * 2 ^ (snd b - e)).

(** IEEE comparison: [None] when an operand is NaN. *)
Definition compare (x y : number) : option comparison :=
  match x, y with
  | S754_nan, _ | _, S754_nan => None
  | S754_infinity s1, S754_infinity s2 =>
      Some (match s1, s2 with
            | true, false => Lt
            | false, true => Gt
            | _, _ => Eq
            end)
  | S754_infinity s, _ => Some (if s then Lt else Gt)
  | _, S754_infinity s => Some (if s then Gt else Lt)
  | _, _ =>
      match parts x, parts y with
      | Some a, Some b => Some (compare_parts a b)
      | _, _ => None
      end
  end.

(** [x < y], [x <= y], [x > y] of JavaScript: false on NaN. *)
Definition ltb (x y : number) : bool :=
  match compare x y with Some Lt => true | _ => false end.
Definition leb (x y : number) : bool :=
  match compare x y with Some (Lt | Eq) => true | _ => false end.
Definition gtb (x y : number) : bool := ltb y x.

(** [Number.isInteger]. *)
Definition isInteger (x : number) : bool :=
  match x with
  | S754_zero _ => true
  | S754_finite _ m e =>
      if 0 <=? e then true else Zpos m mod 2 ^ (- e) =? 0
  | _ => false
  end.

(** The exact floor of a finite number. *)
Definition floor_Z (x : number) : option Z :=
  match x with
  | S754_zero _ => Some 0
  | S754_finite s m e => Some (Z.shiftl (signed s m) e)
  | _ => None
  end.

(** [Math.floor]. *)
Definition Math_floor (x : number) : number :=
  match x with
  | S754_finite s m e =>
      match Z.shiftl (signed s m) e with
      | Z0 => S754_zero s
      | z => of_Z z
      end
  | _ => x
  end.

(** [x * y]: the IEEE table for the special values, and the exact
    product rounded to binary64 otherwise. *)
Definition mul (x y : number) : number :=
  match x, y with
  | S754_finite sx mx ex, S754_finite sy my ey =>
      binary_round prec emax (xorb sx sy) (mx * my) (ex + ey)
  | _, _ => SFmul prec emax x y
  end.

(** ECMAScript's ToIntegerOrInfinity. *)
Inductive IntegerOrInfinity :=
| NegativeInfinity
| Integer (z : Z)
| PositiveInfinity.

Definition ToIntegerOrInfinity (x : number) : IntegerOrInfinity :=
  match x with
  | S754_nan => Integer 0
  | S754_zero _ => Integer 0
  | S754_infinity s => if s then NegativeInfinity else PositiveInfinity
  | S754_finite s m e => Integer (cond_Zopp s (Z.shiftl (Zpos m) e))
  end.

(** [Math.max(...xs)]: -Infinity for no argument, NaN if any argument
    is NaN, and +0 above -0. *)
Definition max_step (highest : number) (x : number) : number :=
  match highest, x with
  | S754_nan, _ | _, S754_nan => S754_nan
  | S754_zero true, S754_zero false => x
  | _, _ => if gtb x highest then x else highest
  end.

Definition Math_max (xs : list number) : number :=
  foldl max_step NegInfinity xs.

End Number.

Export Number.

(** ** Completions: a value, or a thrown [Error] with its message *)

Inductive completion (A : Type) : Type :=
| Return (a : A)
| Throw (message : string).
Arguments Return {A} a.
Arguments Throw {A} message.

Definition bind {A B} (c : completion A) (k : A -> completion B) : completion B :=
  match c with
  | Return a => k a
  | Throw m => Throw m
  end.

Definition throws {A} (c : completion A) : Prop :=
  match c with
  | Return _ => False
  | Throw _ => True
  end.

(** ** [Set<string>] *)

Module JsSet.

(** The elements in insertion order; [add] keeps them distinct. *)
Definition t := list string.

Definition empty : t := [].

Definition has (s : t) (x : string) : bool := bool_decide (x ∈ s).

Definition add (s : t) (x : string) : t :=
  if has s x then s else s ++ [x].

(** [new Set(iterable)] *)
Definition of_list (l : list string) : t := foldl add empty l.

(** [Array.from(set)] *)
Definition to_array (s : t) : list string := s.

Definition size (s : t) : nat := length s.

End JsSet.

(** ** Arrays *)

(** [array.slice(0, end)] *)
Definition Array_slice0 {A} (l : list A) (endx : number) : list A :=
  let len := Z.of_nat (length l) in
  let final :=
    match ToIntegerOrInfinity endx with
    | NegativeInfinity => 0
    | Integer r => if r <? 0 then Z.max (len + r) 0 else Z.min r len
    | PositiveInfinity => len
    end in
  take (Z.to_nat final) l.

(** [code.length] as a number. *)
Definition code_length (code : string) : number :=
  Number.of_nat (String.length code).

(** [Math.max(...Array.from(codes).map(code => code.length))] *)
Definition max_code_length (codes : JsSet.t) : number :=
  Math_max (map code_length (JsSet.to_array codes)).

(** ** Providers *)

(** The interface [CurrencyProvider]: an object answering the three
    methods.  A custom provider is any such object. *)
Record CurrencyProvider := {
  getValidCodes : JsSet.t;
  getMaxLength : number;
  getName : string
}.

(** *** FiatCurrencyProvider *)

Record FiatCurrencyProvider := {
  fiat_validCodes : JsSet.t;
  fiat_maxLength : number
}.

Definition new_FiatCurrencyProvider (currencyCodes_codes : list string)
  : FiatCurrencyProvider :=
  let validCodes := JsSet.of_list currencyCodes_codes in
  {| fiat_validCodes := validCodes;
     fiat_maxLength := max_code_length validCodes |}.

Definition Fiat_provider (this : FiatCurrencyProvider) : CurrencyProvider :=
  {| getValidCodes := JsSet.of_list (fiat_validCodes this);
     getMaxLength := fiat_maxLength this;
     getName := "Fiat Currency Provider" |}.

(** *** CryptocurrencyProvider *)

Record CryptoOptions := {
  opt_maxLength : option number;
  opt_percentage : option number
}.

Record CryptocurrencyProvider := {
  crypto_validCodes : JsSet.t;
  crypto_maxLength : number
}.

Definition new_CryptocurrencyProvider (cryptoSymbols : list string)
  (options : CryptoOptions) : completion CryptocurrencyProvider :=
  let maxLength := opt_maxLength options in
  let percentage := opt_percentage options in
  if match maxLength with
     | Some l => Number.leb l (Number.of_Z 0) || negb (isInteger l)
     | None => false
     end
  then Throw "maxLength must be a positive integer"
  else if match percentage with
          | Some p => Number.leb p (Number.of_Z 0) || Number.gtb p (Number.of_Z 1)
          | None => false
          end
  then Throw "percentage must be a number between 0 and 1"
  else if match maxLength, percentage with
          | Some _, Some _ => true
          | _, _ => false
          end
  then Throw "Cannot specify both maxLength and percentage"
  else
    let selectedCodes := JsSet.of_list cryptoSymbols in
    let selectedCodes :=
      match maxLength with
      | Some l =>
          JsSet.of_list
            (filter (λ code, Number.leb (code_length code) l = true) (JsSet.to_array selectedCodes))
      | None => selectedCodes
      end in
    let selectedCodes :=
      match percentage with
      | Some p =>
          let codesArray := JsSet.to_array selectedCodes in
          let count := Math_floor (Number.mul (Number.of_nat (length codesArray)) p) in
          JsSet.of_list (Array_slice0 codesArray count)
      | None => selectedCodes
      end in
    Return {| crypto_validCodes := selectedCodes;
              crypto_maxLength := max_code_length selectedCodes |}.

Definition Crypto_provider (this : CryptocurrencyProvider) : CurrencyProvider :=
  {| getValidCodes := JsSet.of_list (crypto_validCodes this);
     getMaxLength := crypto_maxLength this;
     getName := "Cryptocurrency Provider" |}.

(** *** MultiCurrencyProvider *)

Record MultiCurrencyProvider := {
  multi_validCodes : JsSet.t;
  multi_maxLength : number;
  multi_providers : list CurrencyProvider
}.

(** The two nested [for ... of] loops of the constructor. *)
Definition add_if_absent (validCodes : JsSet.t) (code : string) : JsSet.t :=
  if negb (JsSet.has validCodes code) then JsSet.add validCodes code else validCodes.

Definition add_provider_codes (validCodes : JsSet.t) (provider : CurrencyProvider) : JsSet.t :=
  foldl add_if_absent validCodes (getValidCodes provider).

Definition new_MultiCurrencyProvider (providers : list CurrencyProvider)
  : completion MultiCurrencyProvider :=
  if (length providers =? 0)%nat
  then Throw "At least one provider must be specified"
  else
    let validCodes := foldl add_provider_codes JsSet.empty providers in
    Return {| multi_validCodes := validCodes;
              multi_maxLength := max_code_length validCodes;
              multi_providers := providers |}.

(** [names.join(', ')] *)
Fixpoint join (sep : string) (names : list string) : string :=
  match names with
  | [] => ""
  | [n] => n
  | n :: rest => n +:+ sep +:+ join sep rest
  end.

Definition Multi_provider (this : MultiCurrencyProvider) : CurrencyProvider :=
  {| getValidCodes := JsSet.of_list (multi_validCodes this);
     getMaxLength := multi_maxLength this;
     getName :=
       "Multi Currency Provider (" +:+
         join ", " (map getName (multi_providers this)) +:+ ")" |}.

(** ** The schema library

    What [createCurrencySchema] uses of zod, for string inputs: a string
    schema carries its checks in the order they were chained; a failing
    check adds an issue with its message and parsing goes on; a
    refinement is evaluated on the checked value and adds an issue when
    it is false; a transform is applied only when no issue was raised.
    A length check passes when its comparison ([length >= v],
    [length <= v]) is true, so a bound that is NaN fails it.
    [safeParse] succeeds with the value when there is no issue and fails
    with the issues otherwise. *)

Module Zod.

Record ParseReturn := {
  issues : list string;
  value : string
}.

Definition ZodType := string -> ParseReturn.

Definition addIssue (r : ParseReturn) (failed : bool) (message : string) : ParseReturn :=
  {| issues := if failed then issues r ++ [message] else issues r;
     value := value r |}.

(** [z.string()] *)
Definition string : ZodType :=
  λ input, {| issues := []; value := input |}.

(** [.min(v, message)]: the check passes when [input.length >= v], and
    raises the issue otherwise. *)
Definition min (v : number) (message : String.string) (schema : ZodType) : ZodType :=
  λ input, addIssue (schema input) (negb (Number.leb v (code_length input))) message.

(** [.max(v, message)]: the check passes when [input.length <= v], and
    raises the issue otherwise; with [v] NaN it raises it on every
    input. *)
Definition max (v : number) (message : String.string) (schema : ZodType) : ZodType :=
  λ input, addIssue (schema input) (negb (Number.leb (code_length input) v)) message.

(** [.refine(check, { message })] *)
Definition refine (check : String.string -> bool) (message : String.string)
  (schema : ZodType) : ZodType :=
  λ input, let r := schema input in addIssue r (negb (check (value r))) message.

(** [.transform(f)] *)
Definition transform (f : String.string -> String.string) (schema : ZodType) : ZodType :=
  λ input,
    let r := schema input in
    match issues r with
    | [] => {| issues := []; value := f (value r) |}
    | _ => r
    end.

Inductive SafeParseReturn :=
| Success (data : String.string)
| Failure (issues : list String.string).

Definition safeParse (schema : ZodType) (input : String.string) : SafeParseReturn :=
  let r := schema input in
  match issues r with
  | [] => Success (value r)
  | errors => Failure errors
  end.

End Zod.

(** ** The schema factory *)

Record CurrencySchemaOptions := {
  provider : option (CurrencyProvider + list CurrencyProvider);
  message : option string
}.

(** [message || defaultMessage]: an absent or empty message is falsy. *)
Definition or_default (message : option string) (defaultMessage : string) : string :=
  match message with
  | Some m => if String.eqb m "" then defaultMessage else m
  | None => defaultMessage
  end.

Section Host.

(** [String.prototype.toUpperCase] and [Number::toString] of the host. *)
Variable toUpperCase : string -> string.
Variable Number_toString : number -> string.

(** [currencyCodes.codes()], the table behind the default provider. *)
Variable currencyCodes_codes : list string.

Definition fiatProvider : CurrencyProvider :=
  Fiat_provider (new_FiatCurrencyProvider currencyCodes_codes).

(** The provider the factory settles on. *)
Definition finalProvider (options : CurrencySchemaOptions) : completion CurrencyProvider :=
  match provider options with
  | Some (inr providers) =>
      bind (new_MultiCurrencyProvider providers) (λ m, Return (Multi_provider m))
  | Some (inl p) => Return p
  | None => Return fiatProvider
  end.

Definition defaultMessage (finalProvider : CurrencyProvider) : string :=
  "Invalid currency code. Must be a valid currency code from " +:+
    getName finalProvider +:+ ".".

Definition exceedMessage (maxLength : number) : string :=
  "Currency code cannot exceed " +:+ Number_toString maxLength +:+ " characters".

Definition emptyMessage : string := "Currency code cannot be empty".

(** The chain built for a settled provider. *)
Definition currencySchema (finalProvider : CurrencyProvider) (message : option string)
  : Zod.ZodType :=
  let validCodes := getValidCodes finalProvider in
  let maxLength := getMaxLength finalProvider in
  Zod.transform (λ code, toUpperCase code)
    (Zod.refine
       (λ code, let upperCode := toUpperCase code in JsSet.has validCodes upperCode)
       (or_default message (defaultMessage finalProvider))
       (Zod.max maxLength (exceedMessage maxLength)
          (Zod.min (Number.of_Z 1) emptyMessage Zod.string))).

Definition createCurrencySchema (options : CurrencySchemaOptions)
  : completion Zod.ZodType :=
  bind (finalProvider options) (λ p, Return (currencySchema p (message options))).

End Host.

(** ** Host instances used to run the definitions

    [ascii_toUpperCase] is [toUpperCase] on strings of ASCII characters;
    [integral_toString] is [Number::toString] on NaN, the infinities and
    the integers below 10^21, which covers every value a maximal length
    computed by [Math.max] over lengths can take. *)

Definition ascii_upper (c : ascii) : ascii :=
  let n := nat_of_ascii c in
  if ((97 <=? n) && (n <=? 122))%nat then ascii_of_nat (n - 32) else c.

Fixpoint ascii_toUpperCase (s : string) : string :=
  match s with
  | EmptyString => EmptyString
  | String c rest => String (ascii_upper c) (ascii_toUpperCase rest)
  end.

Definition digit_char (d : nat) : ascii := ascii_of_nat (48 + d).

Fixpoint decimal_digits (fuel : nat) (n : N) (acc : string) : string :=
  match fuel with
  | O => acc
  | S fuel' =>
      let acc' := String (digit_char (N.to_nat (n mod 10))) acc in
      if (n / 10 =? 0)%N then acc' else decimal_digits fuel' (n / 10)%N acc'
  end.

Definition N_toString (n : N) : string :=
  decimal_digits (S (N.to_nat (N.log2 n))) n "".

Definition integral_toString (x : number) : string :=
  match x with
  | S754_nan => "NaN"
  | S754_infinity s => if s then "-Infinity" else "Infinity"
  | S754_zero _ => "0"
  | S754_finite s m e =>
      (if s then "-" else "") +:+ N_toString (Z.to_N (Z.shiftl (Zpos m) e))
  end.

(** ** Specification predicates *)

(** [m] is the maximal code length of [codes]: an upper bound that is
    attained, and -Infinity (the value of [Math.max()]) for no code. *)
Definition is_max_length (codes : list string) (m : number) : Prop :=
  (∀ c, c ∈ codes → Number.leb (code_length c) m = true) ∧
  (codes ≠ [] → ∃ c, c ∈ codes ∧ m = code_length c) ∧
  (codes = [] → m = NegInfinity).

(** The providers the three classes construct. *)
Inductive constructed : CurrencyProvider → Prop :=
| constructed_fiat table :
    constructed (Fiat_provider (new_FiatCurrencyProvider table))
| constructed_crypto cryptoSymbols options this :
    new_CryptocurrencyProvider cryptoSymbols options = Return this →
    constructed (Crypto_provider this)
| constructed_multi providers this :
    new_MultiCurrencyProvider providers = Return this →
    constructed (Multi_provider this).

(** The running maximum of [Math.max] over lengths, on naturals. *)
Definition max_nat_step (highest : option nat) (n : nat) : option nat :=
  match highest with
  | None => Some n
  | Some h => Some (Nat.max h n)
  end.

Definition of_option_nat (o : option nat) : number :=
  match o with
  | None => NegInfinity
  | Some n => Number.of_nat n
  end.

(** A provider whose bound is not exceeded by any of its codes. *)
Definition honours_max_length (p : CurrencyProvider) : Prop :=
  ∀ c, c ∈ getValidCodes p → Number.gtb (code_length c) (getMaxLength p) = false.

(** A provider whose bound is at least the length of each of its codes;
    a bound that is NaN is not, as soon as there is a code. *)
Definition within_max_length (p : CurrencyProvider) : Prop :=
  ∀ c, c ∈ getValidCodes p → Number.leb (code_length c) (getMaxLength p) = true.

(** A custom provider whose [getMaxLength()] is shorter than one of its
    codes. *)
Definition shortBoundProvider : CurrencyProvider :=
  {| getValidCodes := ["USD"; "EUR"; "CUSTOM"];
     getMaxLength := Number.of_Z 3;
     getName := "Custom Provider" |}.

(** The custom provider of the README: its bound is the length of its
    longest code. *)
Definition customProvider : CurrencyProvider :=
  {| getValidCodes := ["USD"; "EUR"; "CUSTOM"];
     getMaxLength := Number.of_Z 6;
     getName := "Custom Provider" |}.

(** A custom provider whose [getMaxLength()] is NaN. *)
Definition nanBoundProvider : CurrencyProvider :=
  {| getValidCodes := ["USD"; "EUR"];
     getMaxLength := NaN;
     getName := "Custom Provider" |}.

(** The outcome of a product whose sign bit is [s]. *)
Definition has_sign (s : bool) (x : number) : Prop :=
  x = S754_zero s ∨ (∃ m e, x = S754_finite s m e) ∨ x = S754_infinity s.

(** The filter values the constructor is documented to accept. *)
Definition is_positive_integer (x : number) : Prop :=
  ∃ k : Z, 0 < k ∧ Number.compare x (Number.of_Z k) = Some Eq.

Definition in_unit_interval (x : number) : Prop :=
  Number.ltb (Number.of_Z 0) x = true ∧ Number.leb x (Number.of_Z 1) = true.

(** The configurations documented as construction errors: both filters
    given, a max length that is not a positive integer, a percentage
    outside (0, 1]. *)
Definition invalid_configuration (options : CryptoOptions) : Prop :=
  (is_Some (opt_maxLength options) ∧ is_Some (opt_percentage options)) ∨
  (∃ l, opt_maxLength options = Some l ∧ ¬ is_positive_integer l) ∨
  (∃ p, opt_percentage options = Some p ∧ ¬ in_unit_interval p).

Definition only_percentage (p : number) : CryptoOptions :=
  {| opt_maxLength := None; opt_percentage := Some p |}.

(** The literals [0.1] and [0.5]. *)
Definition one_tenth : number := S754_finite false 7205759403792794 (-56).
Definition one_half : number := S754_finite false 4503599627370496 (-53).

(** Sample tables and providers for the closed examples. *)
Definition sampleFiat : list string := ["USD"; "EUR"; "GBP"; "JPY"; "CLF"].
Definition sampleCrypto : list string := ["BTC"; "ETH"; "LTC"; "XRP"; "ADA"].
Definition repeatedCrypto : list string := ["BTC"; "ETH"; "BTC"; "LTC"].

Definition lowerCaseProvider : CurrencyProvider :=
  {| getValidCodes := ["usd"; "EUR"];
     getMaxLength := Number.of_Z 3;
     getName := "Custom Provider" |}.

(** ** Further code of the repository *)

(** *** The other configurations of CryptocurrencyProvider *)

Definition only_maxLength (l : number) : CryptoOptions :=
  {| opt_maxLength := Some l; opt_percentage := None |}.

(** [new CryptocurrencyProvider()]: the options default to [{}]. *)
Definition no_options : CryptoOptions :=
  {| opt_maxLength := None; opt_percentage := None |}.

(** The default export [cryptoProvider]. *)
Definition cryptoProvider (cryptoSymbols : list string) : completion CurrencyProvider :=
  bind (new_CryptocurrencyProvider cryptoSymbols no_options)
       (λ this, Return (Crypto_provider this)).

(** *** tools/max-currency-length.js

    The computations of [analyzeCurrencyLengths] on the two tables.
    Lengths and counts are integers bounded by the length of a table, on
    which the arithmetic of numbers is exact: they are naturals here.
    An object keyed by a length is a finite map over the lengths (a
    length and its decimal property name determine each other).  The
    [percentage] field of a threshold, a decimal rendering made by
    [toFixed], is not part of the model. *)

Module Analysis.

(** The callback of [reduce] that keeps the longer code, and the earlier
    one of two codes of the same length. *)
Definition keep_longer (longest current : string) : string :=
  if Number.gtb (code_length current) (code_length longest) then current else longest.

(** [codes.reduce(keep_longer, '')] *)
Definition longest_code (codes : list string) : string :=
  foldl keep_longer "" codes.

(** [x || 0] on a property that holds a count, or is absent. *)
Definition or_zero (x : option nat) : nat :=
  match x with
  | Some n => if (n =? 0)%nat then 0%nat else n
  | None => 0%nat
  end.

(** The body of the [forEach] over the symbols. *)
Definition count_code (distribution : gmap nat nat) (code : string) : gmap nat nat :=
  let length := String.length code in
  <[length := (or_zero (distribution !! length) + 1)%nat]> distribution.

Definition group_code (byLength : gmap nat (list string)) (code : string)
  : gmap nat (list string) :=
  let length := String.length code in
  let byLength :=
    match byLength !! length with
    | Some _ => byLength
    | None => <[length := []]> byLength
    end in
  match byLength !! length with
  | Some codes => <[length := codes ++ [code]]> byLength
  | None => byLength
  end.

Definition cryptoLengthDistribution (cryptoSymbols : list string) : gmap nat nat :=
  foldl count_code ∅ cryptoSymbols.

Definition cryptoByLength (cryptoSymbols : list string) : gmap nat (list string) :=
  foldl group_code ∅ cryptoSymbols.

(** [Object.keys(distribution)]: integer keys come in ascending order,
    and the script sorts them in ascending order again. *)
Definition Object_keys {V} (o : gmap nat V) : list nat :=
  merge_sort Nat.le (elements (dom o)).

(** The [cumulativeCount] of the threshold at [length].  The summands
    are read at keys of the object, where the property is present. *)
Definition cumulativeCount (distribution : gmap nat nat) (length : nat) : nat :=
  foldl (λ sum l, (sum + default 0%nat (distribution !! l))%nat) 0%nat
    (filter (λ l, (l ≤ length)%nat) (Object_keys distribution)).

(** [cryptoSymbols.filter(code => code.length > threshold)] *)
Definition excluded (cryptoSymbols : list string) (threshold : nat) : list string :=
  filter (λ code, Number.gtb (code_length code) (Number.of_nat threshold) = true)
    cryptoSymbols.

(** [cryptoSymbols.filter(symbol => fiatCodeSet.has(symbol))] *)
Definition conflicts (fiatCodes cryptoSymbols : list string) : list string :=
  let fiatCodeSet := JsSet.of_list fiatCodes in
  filter (λ symbol, JsSet.has fiatCodeSet symbol = true) cryptoSymbols.

End Analysis.

(** *** examples/custom-providers.js *)

(** [DynamicCurrencyProvider]: the codes come from the caller. *)
Record DynamicCurrencyProvider := {
  dyn_currencies : list string
}.

Definition Dynamic_provider (this : DynamicCurrencyProvider) : CurrencyProvider :=
  {| getValidCodes := JsSet.of_list (dyn_currencies this);
     getMaxLength := Math_max (map code_length (dyn_currencies this));
     getName := "Dynamic Currency Provider" |}.

(** [/^[A-Z]/.test(currency)] *)
Definition starts_with_capital (currency : string) : bool :=
  match currency with
  | String c _ => ((65 <=? nat_of_ascii c) && (nat_of_ascii c <=? 90))%nat
  | EmptyString => false
  end.

(** [ValidatedCurrencyProvider]: the codes are filtered by a rule. *)
Record ValidatedCurrencyProvider := {
  val_currencies : list string;
  val_startsWithLetter : bool
}.

Definition Validated_getValidCodes (this : ValidatedCurrencyProvider) : JsSet.t :=
  JsSet.of_list
    (filter (λ currency,
               (if val_startsWithLetter this then starts_with_capital currency else true)
               = true)
            (val_currencies this)).

Definition Validated_getMaxLength (this : ValidatedCurrencyProvider) : number :=
  let validCodes := JsSet.to_array (Validated_getValidCodes this) in
  if (0 <? length validCodes)%nat
  then Math_max (map code_length validCodes)
  else Number.of_Z 0.

Definition Validated_provider (this : ValidatedCurrencyProvider) : CurrencyProvider :=
  {| getValidCodes := Validated_getValidCodes this;
     getMaxLength := Validated_getMaxLength this;
     getName := "Validated Currency Provider" |}.

(** * Properties *)

(** ** Numbers *)

Module NumberFacts.

Lemma compare_of_Z x y :
  Number.compare (Number.of_Z x) (Number.of_Z y) = Some (x ?= y).
Proof.
  assert (Hp : ∀ z, parts (Number.of_Z z) = Some (z, 0)) by (by intros []).
  assert (Hc : Number.compare (Number.of_Z x) (Number.of_Z y) =
               match parts (Number.of_Z x), parts (Number.of_Z y) with
               | Some a, Some b => Some (compare_parts a b)
               | _, _ => None
               end) by (by destruct x, y).
  rewrite Hc, !Hp. unfold compare_parts. cbn [fst snd].
  by rewrite Z.min_id, Z.sub_diag, Z.pow_0_r, !Z.mul_1_r.
Qed.

Lemma compare_of_nat a b :
  Number.compare (Number.of_nat a) (Number.of_nat b) = Some (Z.of_nat a ?= Z.of_nat b).
Proof. apply compare_of_Z. Qed.

Lemma leb_of_nat a b :
  Number.leb (Number.of_nat a) (Number.of_nat b) = bool_decide (a ≤ b)%nat.
Proof.
  unfold Number.leb. rewrite compare_of_nat.
  destruct (Z.compare_spec (Z.of_nat a) (Z.of_nat b));
    symmetry; [apply bool_decide_eq_true|apply bool_decide_eq_true|apply bool_decide_eq_false]; lia.
Qed.

Lemma ltb_of_nat a b :
  Number.ltb (Number.of_nat a) (Number.of_nat b) = bool_decide (a < b)%nat.
Proof.
  unfold Number.ltb. rewrite compare_of_nat.
  destruct (Z.compare_spec (Z.of_nat a) (Z.of_nat b));
    symmetry; [apply bool_decide_eq_false|apply bool_decide_eq_true|apply bool_decide_eq_false]; lia.
Qed.

Lemma gtb_of_nat a b :
  Number.gtb (Number.of_nat a) (Number.of_nat b) = bool_decide (b < a)%nat.
Proof. apply ltb_of_nat. Qed.

Lemma of_nat_inj a b : Number.of_nat a = Number.of_nat b → a = b.
Proof.
  intros H. assert (Hc := compare_of_nat a b). rewrite H, compare_of_nat in Hc.
  rewrite Z.compare_refl in Hc. injection Hc as Hc. symmetry in Hc.
  apply Z.compare_eq in Hc. lia.
Qed.

Lemma of_nat_not_NegInfinity n : Number.of_nat n ≠ NegInfinity.
Proof. unfold Number.of_nat. destruct (Z.of_nat n); discriminate. Qed.

Lemma leb_NegInfinity_false n : Number.leb (Number.of_nat n) NegInfinity = false.
Proof. unfold Number.of_nat. destruct (Z.of_nat n); reflexivity. Qed.

Lemma gtb_NegInfinity n : Number.gtb (Number.of_nat n) NegInfinity = true.
Proof. unfold Number.of_nat. destruct (Z.of_nat n); reflexivity. Qed.

Lemma max_step_of_nat o n :
  max_step (of_option_nat o) (Number.of_nat n) = of_option_nat (max_nat_step o n).
Proof.
  destruct o as [h|]; cbn [of_option_nat max_nat_step].
  - assert (Hg := gtb_of_nat n h).
    assert (Hm : max_step (Number.of_nat h) (Number.of_nat n) =
                 if Number.gtb (Number.of_nat n) (Number.of_nat h)
                 then Number.of_nat n else Number.of_nat h).
    { unfold Number.of_nat. destruct (Z.of_nat h), (Z.of_nat n); reflexivity. }
    rewrite Hm, Hg. case_bool_decide.
    + f_equal. lia.
    + f_equal. lia.
  - assert (Hg := gtb_NegInfinity n).
    assert (Hm : max_step NegInfinity (Number.of_nat n) =
                 if Number.gtb (Number.of_nat n) NegInfinity
                 then Number.of_nat n else NegInfinity).
    { unfold Number.of_nat. destruct (Z.of_nat n); reflexivity. }
    now rewrite Hm, Hg.
Qed.

Lemma foldl_max_step_of_nat ns o :
  foldl max_step (of_option_nat o) (map Number.of_nat ns) =
  of_option_nat (foldl max_nat_step o ns).
Proof.
  revert o. induction ns as [|n ns IH]; intros o; [reflexivity|].
  cbn [map foldl]. rewrite max_step_of_nat. apply IH.
Qed.

Lemma Math_max_of_nat ns :
  Math_max (map Number.of_nat ns) = of_option_nat (foldl max_nat_step None ns).
Proof. apply (foldl_max_step_of_nat ns None). Qed.

(** The running maximum on naturals is the maximum. *)
Lemma foldl_max_nat_step_Some ns h :
  ∃ m, foldl max_nat_step (Some h) ns = Some m ∧
       (h ≤ m)%nat ∧ (∀ n, n ∈ ns → (n ≤ m)%nat) ∧ (m = h ∨ m ∈ ns).
Proof.
  revert h. induction ns as [|n ns IH]; intros h; cbn [foldl max_nat_step].
  - exists h. split_and!; [done|lia|intros n Hn; inversion Hn|by left].
  - destruct (IH (Nat.max h n)) as (m & Hm & Hle & Hall & Hin).
    exists m. split_and!; [done|lia| |].
    + intros k Hk. apply elem_of_cons in Hk as [->|Hk]; [lia|auto].
    + destruct Hin as [->|Hin].
      * destruct (Nat.max_spec h n) as [[_ ->]|[_ ->]]; [right; left|by left].
      * right. by right.
Qed.

Lemma foldl_max_nat_step_None ns :
  match foldl max_nat_step None ns with
  | None => ns = []
  | Some m => (∀ n, n ∈ ns → (n ≤ m)%nat) ∧ m ∈ ns
  end.
Proof.
  destruct ns as [|n ns]; [reflexivity|]. cbn [foldl max_nat_step].
  destruct (foldl_max_nat_step_Some ns n) as (m & -> & Hle & Hall & Hin).
  split.
  - intros k Hk. apply elem_of_cons in Hk as [->|Hk]; [lia|auto].
  - destruct Hin as [->|Hin]; [left|by right].
Qed.

Lemma parts_of_Z z : parts (Number.of_Z z) = Some (z, 0).
Proof. by destruct z. Qed.

Lemma compare_finite_of_Z x z a :
  parts x = Some a →
  Number.compare x (Number.of_Z z) = Some (compare_parts a (z, 0)).
Proof.
  intros Hx.
  assert (Hc : Number.compare x (Number.of_Z z) =
               match parts x, parts (Number.of_Z z) with
               | Some a, Some b => Some (compare_parts a b)
               | _, _ => None
               end) by (destruct x, z; done).
  by rewrite Hc, Hx, parts_of_Z.
Qed.

(** [x < a] implies [x < b] for naturals [a <= b], whatever the
    number [x]. *)
Lemma ltb_of_nat_mono x a b :
  (a ≤ b)%nat → Number.ltb x (Number.of_nat a) = true → Number.ltb x (Number.of_nat b) = true.
Proof.
  intros Hab. unfold Number.ltb, Number.of_nat.
  destruct (parts x) as [[m e]|] eqn:Hx.
  - rewrite !(compare_finite_of_Z x _ (m, e) Hx). unfold compare_parts. cbn [fst snd].
    set (k := 2 ^ (0 - e `min` 0)).
    assert (Hk : 0 ≤ k) by (apply Z.pow_nonneg; lia).
    destruct (Z.compare_spec (m * 2 ^ (e - e `min` 0)) (Z.of_nat a * k)); try discriminate.
    intros _.
    assert (Hlt : m * 2 ^ (e - e `min` 0) < Z.of_nat b * k) by nia.
    apply Z.compare_lt_iff in Hlt. by rewrite Hlt.
  - destruct x as [?|[]| |]; try discriminate Hx;
      destruct (Z.of_nat a), (Z.of_nat b); done.
Qed.

Lemma gtb_of_nat_mono x a b :
  (a ≤ b)%nat → Number.gtb (Number.of_nat b) x = false → Number.gtb (Number.of_nat a) x = false.
Proof.
  intros Hab Hb. destruct (Number.gtb (Number.of_nat a) x) eqn:Ha; [|done].
  unfold Number.gtb in *. by rewrite (ltb_of_nat_mono x a b Hab Ha) in Hb.
Qed.

End NumberFacts.

(** ** Sets *)

Module JsSetFacts.

Lemma has_true s x : JsSet.has s x = true ↔ x ∈ s.
Proof. unfold JsSet.has. apply bool_decide_eq_true. Qed.

Lemma has_false s x : JsSet.has s x = false ↔ x ∉ s.
Proof. unfold JsSet.has. apply bool_decide_eq_false. Qed.

Lemma elem_of_add s x y : y ∈ JsSet.add s x ↔ y ∈ s ∨ y = x.
Proof.
  unfold JsSet.add. destruct (JsSet.has s x) eqn:Hx.
  - apply has_true in Hx. split; [by left|]. by intros [?| ->].
  - rewrite elem_of_app, list_elem_of_singleton. tauto.
Qed.

Lemma NoDup_add s x : NoDup s → NoDup (JsSet.add s x).
Proof.
  intros Hs. unfold JsSet.add. destruct (JsSet.has s x) eqn:Hx; [done|].
  apply has_false in Hx. apply NoDup_app. split_and!; [done| |apply NoDup_singleton].
  intros y Hy Hy'. apply list_elem_of_singleton in Hy' as ->. done.
Qed.

(** The loop body of the composite constructor is [add]. *)
Lemma add_if_absent_add s x : add_if_absent s x = JsSet.add s x.
Proof.
  unfold add_if_absent, JsSet.add. by destruct (JsSet.has s x).
Qed.

Lemma elem_of_foldl_add l s y : y ∈ foldl JsSet.add s l ↔ y ∈ s ∨ y ∈ l.
Proof.
  revert s. induction l as [|x l IH]; intros s; cbn [foldl].
  - split; [by left|]. intros [?|H]; [done|inversion H].
  - rewrite IH, elem_of_add, elem_of_cons. tauto.
Qed.

Lemma NoDup_foldl_add l s : NoDup s → NoDup (foldl JsSet.add s l).
Proof.
  revert s. induction l as [|x l IH]; intros s Hs; cbn [foldl]; [done|].
  apply IH, NoDup_add, Hs.
Qed.

(** Adding distinct fresh elements appends them in order. *)
Lemma foldl_add_fresh l s : NoDup (s ++ l) → foldl JsSet.add s l = s ++ l.
Proof.
  revert s. induction l as [|x l IH]; intros s Hnd; cbn [foldl].
  - by rewrite app_nil_r.
  - assert (Hx : x ∉ s).
    { apply NoDup_app in Hnd as (_ & Hd & _). intros Hin. apply (Hd x Hin). by left. }
    unfold JsSet.add at 2. apply has_false in Hx. rewrite Hx.
    rewrite IH; rewrite <- app_assoc; done.
Qed.

Lemma elem_of_of_list l y : y ∈ JsSet.of_list l ↔ y ∈ l.
Proof.
  unfold JsSet.of_list. rewrite elem_of_foldl_add. unfold JsSet.empty.
  split; [intros [H|H]; [inversion H|done]|by right].
Qed.

Lemma NoDup_of_list l : NoDup (JsSet.of_list l).
Proof. apply NoDup_foldl_add. constructor. Qed.

(** Copying a set ([new Set(set)]) gives the same elements in the
    same order. *)
Lemma of_list_NoDup l : NoDup l → JsSet.of_list l = l.
Proof. intros H. unfold JsSet.of_list. by rewrite foldl_add_fresh. Qed.

Lemma of_list_idemp l : JsSet.of_list (JsSet.of_list l) = JsSet.of_list l.
Proof. apply of_list_NoDup, NoDup_of_list. Qed.

Lemma of_list_nil_inv l : JsSet.of_list l = [] → l = [].
Proof.
  intros H. destruct l as [|x l]; [done|].
  assert (Hx : x ∈ JsSet.of_list (x :: l)) by (apply elem_of_of_list; left).
  rewrite H in Hx. inversion Hx.
Qed.

(** The composite's loops insert the members' codes one after the
    other. *)
Lemma foldl_add_provider_codes providers s :
  foldl add_provider_codes s providers =
  foldl JsSet.add s (concat (map getValidCodes providers)).
Proof.
  revert s. induction providers as [|p ps IH]; intros s; cbn [foldl map concat]; [done|].
  rewrite foldl_app, IH. f_equal. unfold add_provider_codes.
  generalize (getValidCodes p). intros l. revert s.
  induction l as [|x l IHl]; intros s; cbn [foldl]; [done|].
  by rewrite add_if_absent_add, IHl.
Qed.

End JsSetFacts.

(** ** The maximal length *)

Module MaxLengthFacts.
Import NumberFacts.

Lemma max_code_length_spec codes : is_max_length codes (max_code_length codes).
Proof.
  unfold max_code_length, JsSet.to_array, code_length.
  replace (map (λ code, Number.of_nat (String.length code)) codes)
    with (map Number.of_nat (map String.length codes))
    by (rewrite map_map; reflexivity).
  rewrite Math_max_of_nat.
  assert (H := foldl_max_nat_step_None (map String.length codes)).
  destruct (foldl max_nat_step None (map String.length codes)) as [m|];
    cbn [of_option_nat].
  - destruct H as [Hall Hin]. split_and!.
    + intros c Hc. unfold code_length. rewrite leb_of_nat.
      apply bool_decide_eq_true, Hall.
      apply list_elem_of_fmap. by exists c.
    + intros _. apply list_elem_of_fmap in Hin as (c & -> & Hc). by exists c.
    + intros ->. inversion Hin.
  - apply fmap_nil_inv in H. subst codes. split_and!; [|done|done].
    intros c Hc. inversion Hc.
Qed.

(** The maximal length is determined by the codes, whatever their
    order or multiplicity. *)
Lemma is_max_length_unique codes codes' m m' :
  (∀ c, c ∈ codes ↔ c ∈ codes') →
  is_max_length codes m → is_max_length codes' m' → m = m'.
Proof.
  intros Heq (Hub & Hatt & Hnil) (Hub' & Hatt' & Hnil').
  destruct codes as [|c0 cs].
  - destruct codes' as [|c1 cs'].
    + by rewrite Hnil, Hnil'.
    + exfalso. assert (Hin : c1 ∈ []) by (apply Heq; left). inversion Hin.
  - destruct (Hatt ltac:(done)) as (c & Hc & ->).
    assert (Hne : codes' ≠ []).
    { intros ->. assert (Hin : c ∈ []) by (by apply Heq). inversion Hin. }
    destruct (Hatt' Hne) as (c' & Hc' & ->).
    assert (H1 := Hub c' (proj2 (Heq c') Hc')).
    assert (H2 := Hub' c (proj1 (Heq c) Hc)).
    unfold code_length in *. rewrite leb_of_nat in H1, H2.
    apply bool_decide_eq_true in H1, H2. f_equal. lia.
Qed.

Lemma max_code_length_ext codes codes' :
  (∀ c, c ∈ codes ↔ c ∈ codes') →
  max_code_length codes = max_code_length codes'.
Proof.
  intros H. eapply is_max_length_unique; [exact H| |]; apply max_code_length_spec.
Qed.

End MaxLengthFacts.

(** ** Providers *)

Module ProviderFacts.
Import NumberFacts JsSetFacts MaxLengthFacts.

(** Every constructor stores a set and the maximal length computed
    from that very set. *)
Lemma new_CryptocurrencyProvider_Return cryptoSymbols options this :
  new_CryptocurrencyProvider cryptoSymbols options = Return this →
  ∃ selected,
    crypto_validCodes this = JsSet.of_list selected ∧
    crypto_maxLength this = max_code_length (JsSet.of_list selected).
Proof.
  unfold new_CryptocurrencyProvider.
  destruct options as [[l|] [p|]]; cbn [opt_maxLength opt_percentage];
    repeat match goal with
      | |- context [if ?b then _ else _] => destruct b
      end;
    intros H; try discriminate H; injection H as <-; eexists; split; reflexivity.
Qed.

Lemma new_MultiCurrencyProvider_Return providers this :
  new_MultiCurrencyProvider providers = Return this ↔
  providers ≠ [] ∧
  this = {| multi_validCodes := JsSet.of_list (concat (map getValidCodes providers));
            multi_maxLength :=
              max_code_length (JsSet.of_list (concat (map getValidCodes providers)));
            multi_providers := providers |}.
Proof.
  unfold new_MultiCurrencyProvider. rewrite foldl_add_provider_codes.
  fold (JsSet.of_list (concat (map getValidCodes providers))).
  destruct providers as [|p ps]; cbn [length Nat.eqb].
  - split; [discriminate|]. by intros [? _].
  - split.
    + intros H. injection H as <-. done.
    + intros [_ ->]. done.
Qed.

Lemma new_MultiCurrencyProvider_Throw providers :
  throws (new_MultiCurrencyProvider providers) ↔ providers = [].
Proof.
  unfold new_MultiCurrencyProvider. destruct providers; cbn; split; done.
Qed.

Lemma Multi_provider_codes providers this :
  new_MultiCurrencyProvider providers = Return this →
  getValidCodes (Multi_provider this) =
    JsSet.of_list (concat (map getValidCodes providers)) ∧
  getMaxLength (Multi_provider this) =
    max_code_length (JsSet.of_list (concat (map getValidCodes providers))).
Proof.
  intros H. apply new_MultiCurrencyProvider_Return in H as [_ ->].
  cbn [Multi_provider getValidCodes getMaxLength multi_validCodes multi_maxLength].
  by rewrite of_list_idemp.
Qed.

Lemma constructed_max_code_length p :
  constructed p →
  NoDup (getValidCodes p) ∧ getMaxLength p = max_code_length (getValidCodes p).
Proof.
  intros [table|cryptoSymbols options this H|providers this H].
  - cbn. rewrite of_list_idemp. split; [apply NoDup_of_list|done].
  - apply new_CryptocurrencyProvider_Return in H as (selected & Hc & Hm).
    cbn. rewrite Hc, Hm, of_list_idemp. split; [apply NoDup_of_list|done].
  - apply Multi_provider_codes in H as [-> ->]. split; [apply NoDup_of_list|done].
Qed.

End ProviderFacts.

Section MaxLengthInvariant.
Import ProviderFacts MaxLengthFacts.

(** C3. For every provider built by FiatCurrencyProvider, by
    CryptocurrencyProvider (with options its constructor accepts) or by
    MultiCurrencyProvider (over a list its constructor accepts),
    [getMaxLength()] is the maximal code length over the set returned
    by [getValidCodes()]: it bounds every code's length, it is the
    length of one of the codes when there is one, and it is -Infinity,
    the value of [Math.max()], when there is none. *)
Theorem max_length_is_true_maximum (p : CurrencyProvider) :
  constructed p → is_max_length (getValidCodes p) (getMaxLength p).
Proof.
  intros H. apply constructed_max_code_length in H as [_ ->].
  apply max_code_length_spec.
Qed.

Lemma max_length_is_true_maximum_witness :
  is_max_length
    (getValidCodes (Fiat_provider (new_FiatCurrencyProvider ["USD"; "EUR"; "CLF"; "USD"])))
    (getMaxLength (Fiat_provider (new_FiatCurrencyProvider ["USD"; "EUR"; "CLF"; "USD"]))).
Proof. apply max_length_is_true_maximum. constructor. Defined.

End MaxLengthInvariant.

(** ** The length checks *)

Module LengthCheckFacts.
Import NumberFacts.

(** A length compares with every number but NaN, and the two orders
    of the operands agree. *)
Lemma compare_of_nat_total n x :
  x = NaN ∨
  ∃ c, Number.compare (Number.of_nat n) x = Some c ∧
       Number.compare x (Number.of_nat n) = Some (CompOpp c).
Proof.
  assert (Hanti : ∀ a b, compare_parts a b = CompOpp (compare_parts b a)).
  { intros a b. unfold compare_parts. rewrite (Z.min_comm (snd a) (snd b)).
    apply Z.compare_antisym. }
  unfold Number.of_nat.
  destruct x as [s|[]| |s m e]; [|right..|by left|].
  - right. exists (compare_parts (Z.of_nat n, 0) (0, 0)). split.
    + by destruct (Z.of_nat n).
    + rewrite (compare_finite_of_Z (S754_zero s) _ (0, 0) eq_refl). f_equal. apply Hanti.
  - exists Gt. by destruct (Z.of_nat n).
  - exists Lt. by destruct (Z.of_nat n).
  - right. exists (compare_parts (Z.of_nat n, 0) (signed s m, e)). split.
    + by destruct (Z.of_nat n).
    + rewrite (compare_finite_of_Z (S754_finite s m e) _ (signed s m, e) eq_refl).
      f_equal. apply Hanti.
Qed.

(** [n <= x] fails exactly when [n > x] or [x] is NaN. *)
Lemma leb_of_nat_false n x :
  Number.leb (Number.of_nat n) x = false ↔
  Number.gtb (Number.of_nat n) x = true ∨ x = NaN.
Proof.
  unfold Number.leb, Number.gtb, Number.ltb.
  destruct (compare_of_nat_total n x) as [->|(c & H1 & H2)].
  - split; [by right|]. intros _. unfold Number.of_nat. by destruct (Z.of_nat n).
  - assert (Hx : x ≠ NaN).
    { intros ->. unfold Number.of_nat in H1. by destruct (Z.of_nat n). }
    rewrite H1, H2.
    destruct c; cbn [CompOpp]; split; intros H; try done; try (by left); by destruct H.
Qed.

Lemma leb_of_nat_mono x a b :
  (a ≤ b)%nat →
  Number.leb (Number.of_nat b) x = true → Number.leb (Number.of_nat a) x = true.
Proof.
  intros Hab Hb. destruct (Number.leb (Number.of_nat a) x) eqn:Ha; [done|].
  apply leb_of_nat_false in Ha as [Ha| ->].
  - assert (Hf : Number.leb (Number.of_nat b) x = false).
    { apply leb_of_nat_false. left. unfold Number.gtb in *.
      by apply (ltb_of_nat_mono x a b). }
    congruence.
  - unfold Number.of_nat in Hb. by destruct (Z.of_nat b).
Qed.

(** Where some length is within the bound, a length that does not
    exceed the bound is within it. *)
Lemma leb_of_not_gtb n k x :
  Number.leb (Number.of_nat k) x = true →
  Number.gtb (Number.of_nat n) x = false →
  Number.leb (Number.of_nat n) x = true.
Proof.
  intros Hk Hn. destruct (Number.leb (Number.of_nat n) x) eqn:Hl; [done|].
  apply leb_of_nat_false in Hl as [Hl| ->]; [congruence|].
  unfold Number.of_nat in Hk. by destruct (Z.of_nat k).
Qed.

(** Against a bound that is not NaN, a length is within the bound
    exactly when it does not exceed it. *)
Lemma leb_code_length_not_gtb s x :
  x ≠ NaN →
  Number.leb (code_length s) x = true ↔ Number.gtb (code_length s) x = false.
Proof.
  intros Hx. unfold code_length. split; intros H.
  - destruct (Number.gtb _ x) eqn:Hg; [|done].
    assert (Hf : Number.leb (Number.of_nat (String.length s)) x = false)
      by (apply leb_of_nat_false; by left).
    congruence.
  - destruct (Number.leb _ x) eqn:Hl; [done|].
    apply leb_of_nat_false in Hl as [Hl|Hl]; [congruence|done].
Qed.

(** The maximal code length of a set is a length or -Infinity. *)
Lemma max_code_length_not_NaN codes : max_code_length codes ≠ NaN.
Proof.
  destruct (MaxLengthFacts.max_code_length_spec codes) as (_ & Hatt & Hnil).
  destruct codes as [|c cs].
  - by rewrite Hnil.
  - destruct (Hatt ltac:(done)) as (c' & _ & ->).
    unfold code_length, Number.of_nat. by destruct (Z.of_nat _).
Qed.

Lemma constructed_not_NaN p : constructed p → getMaxLength p ≠ NaN.
Proof.
  intros H. apply ProviderFacts.constructed_max_code_length in H as [_ ->].
  apply max_code_length_not_NaN.
Qed.

Lemma leb_1_code_length s : Number.leb (Number.of_Z 1) (code_length s) = true ↔ s ≠ "".
Proof.
  unfold code_length. change (Number.of_Z 1) with (Number.of_nat 1).
  rewrite leb_of_nat, bool_decide_eq_true.
  destruct s; cbn [String.length]; split; (done || lia).
Qed.

Lemma leb_1_code_length_true s :
  s ≠ "" → Number.leb (Number.of_Z 1) (code_length s) = true.
Proof. apply leb_1_code_length. Qed.

End LengthCheckFacts.

(** ** The validation pipeline *)

Section Pipeline.
Import NumberFacts JsSetFacts LengthCheckFacts.

Variable toUpperCase : string → string.
Variable Number_toString : number → string.

Local Abbreviation schema := (currencySchema toUpperCase Number_toString).
Local Abbreviation exceedMessage := (exceedMessage Number_toString).

(** The issues of a parse, in the order of the chain: the emptiness
    check, the length check, the membership refinement. *)
Lemma safeParse_currencySchema p msg s :
  Zod.safeParse (schema p msg) s =
  match
    (if Number.leb (Number.of_Z 1) (code_length s) then [] else [emptyMessage]) ++
    (if Number.leb (code_length s) (getMaxLength p)
     then [] else [exceedMessage (getMaxLength p)]) ++
    (if JsSet.has (getValidCodes p) (toUpperCase s)
     then [] else [or_default msg (defaultMessage p)])
  with
  | [] => Zod.Success (toUpperCase s)
  | errors => Zod.Failure errors
  end.
Proof.
  unfold Zod.safeParse, currencySchema, Zod.transform, Zod.refine, Zod.max, Zod.min,
    Zod.string, Zod.addIssue.
  cbn [Zod.issues Zod.value].
  destruct (Number.leb (Number.of_Z 1) (code_length s));
    destruct (Number.leb (code_length s) (getMaxLength p));
    destruct (JsSet.has (getValidCodes p) (toUpperCase s)); reflexivity.
Qed.

(** Validation succeeds exactly on a non-empty input whose length is
    within the provider's bound and whose upper-case form is in the
    provider's set; the result is that upper-case form. *)
Lemma safeParse_Success p msg s out :
  Zod.safeParse (schema p msg) s = Zod.Success out ↔
  s ≠ "" ∧ Number.leb (code_length s) (getMaxLength p) = true ∧
  toUpperCase s ∈ getValidCodes p ∧ out = toUpperCase s.
Proof.
  rewrite safeParse_currencySchema.
  destruct (Number.leb (Number.of_Z 1) (code_length s)) eqn:He.
  2:{ split; [discriminate|]. intros [Hs _]. apply leb_1_code_length in Hs. congruence. }
  apply leb_1_code_length in He.
  destruct (Number.leb (code_length s) (getMaxLength p)) eqn:Hg.
  2:{ split; [discriminate|]. by intros (_ & ? & _). }
  destruct (JsSet.has (getValidCodes p) (toUpperCase s)) eqn:Hh; cbn [app].
  - apply has_true in Hh. split.
    + intros H. injection H as <-. done.
    + by intros (_ & _ & _ & ->).
  - apply has_false in Hh. split; [discriminate|]. by intros (_ & _ & ? & _).
Qed.

(** The same, for a bound that is not NaN. *)
Lemma safeParse_Success_bounded p msg s out :
  getMaxLength p ≠ NaN →
  Zod.safeParse (schema p msg) s = Zod.Success out ↔
  s ≠ "" ∧ Number.gtb (code_length s) (getMaxLength p) = false ∧
  toUpperCase s ∈ getValidCodes p ∧ out = toUpperCase s.
Proof.
  intros Hn. by rewrite safeParse_Success, (leb_code_length_not_gtb s _ Hn).
Qed.

(** C8. Length gates.  For every provider, validating the empty string
    fails and its first issue is the fixed message "Currency code
    cannot be empty".  Validating a string whose length is not within
    the provider's max length fails with the message naming that bound,
    whatever the string contains: that message is the first issue for
    a non-empty string and follows the emptiness message for the
    empty string.  The issue of the membership check, if any, comes
    after them: it is never the one reported first.  The length of a
    string is not within the bound exactly when it exceeds the bound
    or the bound is NaN, which no length is within. *)
Theorem length_gates (p : CurrencyProvider) (msg : option string) :
  Zod.safeParse (schema p msg) "" =
    Zod.Failure
      ("Currency code cannot be empty" ::
       (if Number.leb (code_length "") (getMaxLength p)
        then [] else [exceedMessage (getMaxLength p)]) ++
       (if JsSet.has (getValidCodes p) (toUpperCase "")
        then [] else [or_default msg (defaultMessage p)])) ∧
  (∀ s, Number.leb (code_length s) (getMaxLength p) = false →
     Zod.safeParse (schema p msg) s =
       Zod.Failure
         ((if String.eqb s "" then ["Currency code cannot be empty"] else []) ++
          ("Currency code cannot exceed " +:+ Number_toString (getMaxLength p) +:+
             " characters") ::
          (if JsSet.has (getValidCodes p) (toUpperCase s)
           then [] else [or_default msg (defaultMessage p)]))) ∧
  (∀ s, Number.leb (code_length s) (getMaxLength p) = false ↔
        Number.gtb (code_length s) (getMaxLength p) = true ∨ getMaxLength p = NaN).
Proof.
  assert (He : Number.leb (Number.of_Z 1) (code_length "") = false) by reflexivity.
  split_and!.
  - rewrite safeParse_currencySchema, He. reflexivity.
  - intros s Hg. rewrite safeParse_currencySchema, Hg.
    destruct (String.eqb_spec s "") as [->|Hs].
    + rewrite He. reflexivity.
    + rewrite (leb_1_code_length_true s Hs). reflexivity.
  - intros s. apply leb_of_nat_false.
Qed.

(** C9. Whenever validation succeeds, the returned string is an
    element of the provider's set; hence, the host's upper-casing
    being idempotent, a member of the set that is not its own
    upper-case form is never returned: no input validates to it. *)
Theorem success_returns_member (p : CurrencyProvider) (msg : option string) :
  (∀ s, toUpperCase (toUpperCase s) = toUpperCase s) →
  (∀ s out, Zod.safeParse (schema p msg) s = Zod.Success out →
            out ∈ getValidCodes p ∧ out = toUpperCase s) ∧
  (∀ member, member ∈ getValidCodes p → toUpperCase member ≠ member →
             ∀ s, Zod.safeParse (schema p msg) s ≠ Zod.Success member).
Proof.
  intros Hidem. split.
  - intros s out H. apply safeParse_Success in H as (_ & _ & Hin & ->). done.
  - intros member _ Hne s H. apply safeParse_Success in H as (_ & _ & _ & ->).
    apply Hne, Hidem.
Qed.

(** The built-in providers honour their bound. *)
Lemma constructed_honours_max_length p : constructed p → honours_max_length p.
Proof.
  intros H c Hc.
  apply ProviderFacts.constructed_max_code_length in H as [_ Hm].
  destruct (MaxLengthFacts.max_code_length_spec (getValidCodes p)) as (Hub & Hatt & _).
  destruct (Hatt ltac:(by intros E; rewrite E in Hc; inversion Hc)) as (c' & Hc' & Hmax).
  rewrite Hm, Hmax. unfold code_length. rewrite gtb_of_nat. apply bool_decide_eq_false.
  specialize (Hub c Hc). rewrite Hmax in Hub. unfold code_length in Hub.
  rewrite leb_of_nat in Hub. apply bool_decide_eq_true in Hub. lia.
Qed.

(** Each code of a built-in provider is within its bound. *)
Lemma constructed_within_max_length p : constructed p → within_max_length p.
Proof.
  intros H c Hc.
  apply ProviderFacts.constructed_max_code_length in H as [_ Hm].
  destruct (MaxLengthFacts.max_code_length_spec (getValidCodes p)) as (Hub & _).
  rewrite Hm. by apply Hub.
Qed.

(** The default provider and a wrapped list are built-in providers. *)
Lemma finalProvider_constructed table options p :
  finalProvider table options = Return p →
  (∀ custom, provider options ≠ Some (inl custom)) →
  constructed p.
Proof.
  unfold finalProvider. intros H Hc.
  destruct (provider options) as [[custom|providers]|].
  - by destruct (Hc custom).
  - destruct (new_MultiCurrencyProvider providers) as [this|] eqn:Hm; [|discriminate].
    injection H as <-. by econstructor.
  - injection H as <-. constructor.
Qed.

(** C7 (amended). For every input that is non-empty, whose length
    is within the provider's max length (at most that bound, which is
    then not NaN) and whose upper-case form is not in the provider's
    set, validation fails with exactly one issue.  Its message is the caller-supplied message when that message
    is a non-empty string, and otherwise (no message, or the empty
    string) the default message, which names the provider. *)
Theorem unknown_code_message (p : CurrencyProvider) (msg : option string) (s : string) :
  s ≠ "" →
  Number.leb (code_length s) (getMaxLength p) = true →
  toUpperCase s ∉ getValidCodes p →
  Zod.safeParse (schema p msg) s =
    Zod.Failure
      [match msg with
       | Some m =>
           if String.eqb m ""
           then "Invalid currency code. Must be a valid currency code from " +:+
                  getName p +:+ "."
           else m
       | None =>
           "Invalid currency code. Must be a valid currency code from " +:+
             getName p +:+ "."
       end].
Proof.
  intros Hs Hg Hn. rewrite safeParse_currencySchema, Hg.
  rewrite (leb_1_code_length_true s Hs). apply has_false in Hn. rewrite Hn.
  reflexivity.
Qed.

(** C1 (amended). Let the factory settle on a provider that is built by
    one of the three classes or, if custom, has each code of its set
    within its bound (the length of the code is at most
    [getMaxLength()], which is then not NaN), and let [c] be a non-empty
    code of its set.  Then validating any letter-case variant of [c] (a
    string whose upper-casing equals [c]) succeeds and returns
    [uppercase(c)], which is [c] itself.  The host's upper-casing is
    idempotent, never shortens a string and maps the empty string to
    itself. *)
Theorem valid_code_any_case
  (currencyCodes_codes : list string) (options : CurrencySchemaOptions)
  (p : CurrencyProvider) (c s : string) :
  (∀ x, toUpperCase (toUpperCase x) = toUpperCase x) →
  (∀ x, (String.length x ≤ String.length (toUpperCase x))%nat) →
  toUpperCase "" = "" →
  finalProvider currencyCodes_codes options = Return p →
  constructed p ∨ within_max_length p →
  c ∈ getValidCodes p →
  c ≠ "" →
  toUpperCase s = c →
  ∃ sch,
    createCurrencySchema toUpperCase Number_toString currencyCodes_codes options =
      Return sch ∧
    Zod.safeParse sch s = Zod.Success (toUpperCase c) ∧
    toUpperCase c = c.
Proof.
  intros Hidem Hlen Hempty Hp Hhon Hc Hne Hs.
  assert (Hhon' : within_max_length p).
  { destruct Hhon as [Hb|Hh]; [by apply constructed_within_max_length|exact Hh]. }
  exists (schema p (message options)). split_and!.
  - unfold createCurrencySchema. by rewrite Hp.
  - apply safeParse_Success. split_and!.
    + intros ->. congruence.
    + apply (leb_of_nat_mono _ _ (String.length c)).
      * rewrite <- Hs. apply Hlen.
      * apply (Hhon' c Hc).
    + by rewrite Hs.
    + by rewrite <- Hs, Hidem.
  - by rewrite <- Hs, Hidem.
Qed.

End Pipeline.

(** ** The composite provider *)

Section Composite.
Import NumberFacts JsSetFacts MaxLengthFacts ProviderFacts LengthCheckFacts.

Variable toUpperCase : string → string.
Variable Number_toString : number → string.

Local Abbreviation schema := (currencySchema toUpperCase Number_toString).

Lemma list_to_set_of_list (l : list string) :
  (list_to_set (JsSet.of_list l) : gset string) = list_to_set l.
Proof.
  apply set_eq. intros x. rewrite !elem_of_list_to_set. apply elem_of_of_list.
Qed.

(** Two composites over lists of providers with the same codes accept
    the same inputs, with the same results. *)
Lemma composite_success_ext providers providers' this this' :
  new_MultiCurrencyProvider providers = Return this →
  new_MultiCurrencyProvider providers' = Return this' →
  (∀ c, c ∈ concat (map getValidCodes providers) ↔
        c ∈ concat (map getValidCodes providers')) →
  ∀ msg msg' s out,
    Zod.safeParse (schema (Multi_provider this) msg) s = Zod.Success out ↔
    Zod.safeParse (schema (Multi_provider this') msg') s = Zod.Success out.
Proof.
  intros H H' Heq msg msg' s out.
  apply Multi_provider_codes in H as [Hc Hm].
  apply Multi_provider_codes in H' as [Hc' Hm'].
  rewrite !safeParse_Success, Hc, Hm, Hc', Hm'.
  assert (Hset : ∀ c, c ∈ JsSet.of_list (concat (map getValidCodes providers)) ↔
                      c ∈ JsSet.of_list (concat (map getValidCodes providers'))).
  { intros c. by rewrite !elem_of_of_list. }
  rewrite (max_code_length_ext _ _ Hset), (Hset (toUpperCase s)). done.
Qed.

(** C2. For all providers [A] and [B], the codes of
    [MultiCurrencyProvider([A, B])] are the set union of the codes of
    [A] and of [B]: no code is counted twice and the size is the size
    of the union.  An input is accepted exactly when it is non-empty, not
    longer than the longest code of the union and its upper-case form is
    a code of [A] or of [B]; in particular the composite of [[B, A]]
    accepts the same inputs with the same results. *)
Theorem composite_is_union (A B : CurrencyProvider) :
  ∃ this,
    new_MultiCurrencyProvider [A; B] = Return this ∧
    (list_to_set (getValidCodes (Multi_provider this)) : gset string) =
      list_to_set (getValidCodes A) ∪ list_to_set (getValidCodes B) ∧
    NoDup (getValidCodes (Multi_provider this)) ∧
    JsSet.size (getValidCodes (Multi_provider this)) =
      size (list_to_set (getValidCodes A) ∪ list_to_set (getValidCodes B) : gset string) ∧
    (∀ c, JsSet.has (getValidCodes (Multi_provider this)) c =
            JsSet.has (getValidCodes A) c || JsSet.has (getValidCodes B) c) ∧
    is_max_length (getValidCodes A ++ getValidCodes B)
      (getMaxLength (Multi_provider this)) ∧
    (∀ msg s out,
       Zod.safeParse (schema (Multi_provider this) msg) s = Zod.Success out ↔
       s ≠ "" ∧
       Number.gtb (code_length s) (getMaxLength (Multi_provider this)) = false ∧
       (toUpperCase s ∈ getValidCodes A ∨ toUpperCase s ∈ getValidCodes B) ∧
       out = toUpperCase s) ∧
    ∃ this',
      new_MultiCurrencyProvider [B; A] = Return this' ∧
      ∀ msg msg' s out,
        Zod.safeParse (schema (Multi_provider this) msg) s = Zod.Success out ↔
        Zod.safeParse (schema (Multi_provider this') msg') s = Zod.Success out.
Proof.
  destruct (new_MultiCurrencyProvider [A; B]) as [this|] eqn:H;
    [|discriminate H].
  destruct (new_MultiCurrencyProvider [B; A]) as [this'|] eqn:H';
    [|discriminate H'].
  exists this. split; [done|].
  destruct (Multi_provider_codes _ _ H) as [Hc Hm].
  cbn [map concat] in Hc, Hm. rewrite app_nil_r in Hc, Hm.
  assert (Hin : ∀ c, c ∈ getValidCodes (Multi_provider this) ↔
                     c ∈ getValidCodes A ∨ c ∈ getValidCodes B).
  { intros c. by rewrite Hc, elem_of_of_list, elem_of_app. }
  assert (Hset : (list_to_set (getValidCodes (Multi_provider this)) : gset string) =
                 list_to_set (getValidCodes A) ∪ list_to_set (getValidCodes B)).
  { by rewrite Hc, list_to_set_of_list, list_to_set_app_L. }
  assert (Hnd : NoDup (getValidCodes (Multi_provider this))).
  { rewrite Hc. apply NoDup_of_list. }
  split_and!.
  - exact Hset.
  - exact Hnd.
  - rewrite <- Hset. unfold JsSet.size. symmetry. by apply size_list_to_set.
  - intros c. apply eq_true_iff_eq.
    rewrite orb_true_iff, !has_true. apply Hin.
  - rewrite Hm.
    rewrite (max_code_length_ext _ (getValidCodes A ++ getValidCodes B)).
    + apply max_code_length_spec.
    + intros c. apply elem_of_of_list.
  - intros msg s out. rewrite safeParse_Success_bounded, Hin; [done|].
    rewrite Hm. apply max_code_length_not_NaN.
  - exists this'. split; [done|].
    apply (composite_success_ext [A; B] [B; A]); [done|done|].
    intros c. cbn [map concat]. rewrite !app_nil_r, !elem_of_app. tauto.
Qed.

(** C10. Composing a single provider changes nothing but the name: for
    every provider [A], the codes of [MultiCurrencyProvider([A])] are
    the codes of [A] (a copy of [A]'s set, with the same elements) and
    its max length is the maximal code length of [A]'s set. *)
Theorem composite_of_one (A : CurrencyProvider) :
  ∃ this,
    new_MultiCurrencyProvider [A] = Return this ∧
    getValidCodes (Multi_provider this) = JsSet.of_list (getValidCodes A) ∧
    (∀ c, c ∈ getValidCodes (Multi_provider this) ↔ c ∈ getValidCodes A) ∧
    (list_to_set (getValidCodes (Multi_provider this)) : gset string) =
      list_to_set (getValidCodes A) ∧
    getMaxLength (Multi_provider this) = max_code_length (getValidCodes A) ∧
    is_max_length (getValidCodes A) (getMaxLength (Multi_provider this)).
Proof.
  destruct (new_MultiCurrencyProvider [A]) as [this|] eqn:H;
    [|discriminate H].
  exists this. split; [done|].
  destruct (Multi_provider_codes _ _ H) as [Hc Hm].
  cbn [map concat] in Hc, Hm. rewrite app_nil_r in Hc, Hm.
  assert (Hext : max_code_length (JsSet.of_list (getValidCodes A)) =
                 max_code_length (getValidCodes A)).
  { apply max_code_length_ext. intros c. apply elem_of_of_list. }
  split_and!.
  - exact Hc.
  - intros c. rewrite Hc. apply elem_of_of_list.
  - rewrite Hc. apply list_to_set_of_list.
  - by rewrite Hm.
  - rewrite Hm, Hext. apply max_code_length_spec.
Qed.

End Composite.

(** ** Rounding and the percentage count *)

Module RoundingFacts.
Import NumberFacts.

Lemma shr_1_nonneg r : 0 ≤ shr_m r → 0 ≤ shr_m (shr_1 r).
Proof. destruct r as [[|[p|p|]|p] b1 b2]; cbn; lia. Qed.

Lemma iter_pos_shr_1_nonneg p r : 0 ≤ shr_m r → 0 ≤ shr_m (SpecFloat.iter_pos shr_1 p r).
Proof.
  revert r. induction p as [p IH|p IH|]; intros r Hr; cbn [SpecFloat.iter_pos].
  - apply IH, IH, shr_1_nonneg, Hr.
  - apply IH, IH, Hr.
  - apply shr_1_nonneg, Hr.
Qed.

Lemma shr_nonneg r e n : 0 ≤ shr_m r → 0 ≤ shr_m (fst (shr r e n)).
Proof.
  intros Hr. destruct n; cbn [shr fst]; [done| |done].
  by apply iter_pos_shr_1_nonneg.
Qed.

Lemma shr_record_of_loc_m m l : shr_m (shr_record_of_loc m l) = m.
Proof. by destruct l as [|[]]. Qed.

Lemma round_nearest_even_nonneg m l : 0 ≤ m → 0 ≤ round_nearest_even m l.
Proof.
  intros Hm. destruct l as [|[]]; cbn [round_nearest_even]; [done| |done|lia].
  destruct (Z.even m); lia.
Qed.

Lemma binary_round_aux_sign s m e l :
  0 ≤ m → has_sign s (binary_round_aux prec emax s m e l).
Proof.
  intros Hm. unfold binary_round_aux, shr_fexp.
  destruct (shr (shr_record_of_loc m l) e _) as [mrs' e'] eqn:H1.
  destruct (shr (shr_record_of_loc _ loc_Exact) e' _) as [mrs'' e''] eqn:H2.
  assert (Hm' : 0 ≤ shr_m mrs').
  { change mrs' with (fst (mrs', e')). rewrite <- H1.
    apply shr_nonneg. by rewrite shr_record_of_loc_m. }
  assert (Hm'' : 0 ≤ shr_m mrs'').
  { change mrs'' with (fst (mrs'', e'')). rewrite <- H2.
    apply shr_nonneg. rewrite shr_record_of_loc_m.
    by apply round_nearest_even_nonneg. }
  destruct (shr_m mrs'') as [|q|q]; [by left| |lia].
  destruct (e'' <=? emax - prec); [right; left; eauto|by right; right].
Qed.

Lemma binary_round_sign s m e : has_sign s (binary_round prec emax s m e).
Proof.
  unfold binary_round. destruct (shl_align m e _) as [mz ez].
  by apply binary_round_aux_sign.
Qed.

(** A length times a positive finite number is +0, positive and finite,
    or +Infinity. *)
Lemma mul_of_nat_positive n m e :
  has_sign false (Number.mul (Number.of_nat n) (S754_finite false m e)).
Proof.
  unfold Number.of_nat. destruct (Z.of_nat n) as [|q|q] eqn:Hq; cbn [Number.of_Z Number.mul].
  - by left.
  - apply binary_round_sign.
  - lia.
Qed.

Lemma compare_parts_antisym a b : compare_parts a b = CompOpp (compare_parts b a).
Proof.
  unfold compare_parts. rewrite (Z.min_comm (snd a) (snd b)). apply Z.compare_antisym.
Qed.

Lemma compare_finite x y a b :
  parts x = Some a → parts y = Some b →
  Number.compare x y = Some (compare_parts a b).
Proof.
  destruct x, y; cbn [parts]; intros Ha Hb; try discriminate Ha; try discriminate Hb;
    injection Ha as <-; injection Hb as <-; reflexivity.
Qed.

Lemma compare_antisym x y c :
  Number.compare x y = Some c → Number.compare y x = Some (CompOpp c).
Proof.
  destruct (parts x) as [a|] eqn:Hx, (parts y) as [b|] eqn:Hy.
  - rewrite (compare_finite x y a b Hx Hy), (compare_finite y x b a Hy Hx).
    intros H. injection H as <-. f_equal. apply compare_parts_antisym.
  - destruct y as [?|[]| |]; try discriminate Hy;
      destruct x as [?|?| |]; try discriminate Hx;
      cbn [Number.compare]; intros H; try discriminate H; by injection H as <-.
  - destruct x as [?|[]| |]; try discriminate Hx;
      destruct y as [?|?| |]; try discriminate Hy;
      cbn [Number.compare]; intros H; try discriminate H; by injection H as <-.
  - destruct x as [?|[]| |]; try discriminate Hx;
      destruct y as [?|[]| |]; try discriminate Hy;
      cbn [Number.compare]; intros H; try discriminate H; by injection H as <-.
Qed.

Lemma zero_lt_negative m e : compare_parts (0, 0) (signed true m, e) = Gt.
Proof.
  unfold compare_parts, signed. cbn [fst snd cond_Zopp].
  apply Z.compare_gt_iff.
  assert (0 < 2 ^ (e - 0 `min` e)) by (apply Z.pow_pos_nonneg; lia).
  rewrite Z.mul_0_l. change (- Z.pos m) with (Z.neg m). nia.
Qed.

(** A percentage in (0, 1] is a positive finite number, and passes the
    constructor's check. *)
Lemma percentage_in_range p :
  Number.ltb (Number.of_Z 0) p = true → Number.leb p (Number.of_Z 1) = true →
  (∃ m e, p = S754_finite false m e) ∧
  Number.leb p (Number.of_Z 0) || Number.gtb p (Number.of_Z 1) = false.
Proof.
  intros H0 H1. split.
  - destruct p as [s|[]| |[] m e]; try discriminate H0; try discriminate H1; [|eauto].
    exfalso. revert H0. unfold Number.ltb.
    rewrite (compare_finite (Number.of_Z 0) (S754_finite true m e)
               (0, 0) (signed true m, e) eq_refl eq_refl).
    by rewrite zero_lt_negative.
  - unfold Number.leb, Number.gtb, Number.ltb in *.
    destruct (Number.compare (Number.of_Z 0) p) as [[]|] eqn:E0; try discriminate H0.
    destruct (Number.compare p (Number.of_Z 1)) as [[]|] eqn:E1; try discriminate H1;
      apply compare_antisym in E0, E1; by rewrite E0, E1.
Qed.

(** *** No overflow

    [binary_round] returns an infinity only when the exponent it ends
    with exceeds [emax - prec]; the lemmas below bound that exponent by
    the number of digits of the mantissa. *)

Lemma digits2_pos_log2 p : Z.pos (digits2_pos p) = Z.log2 (Z.pos p) + 1.
Proof.
  induction p as [p IH|p IH|]; cbn [digits2_pos]; [| |reflexivity].
  - rewrite Pos2Z.inj_succ, IH.
    change (Z.pos p~1) with (2 * Z.pos p + 1). rewrite Z.log2_succ_double by lia. lia.
  - rewrite Pos2Z.inj_succ, IH.
    change (Z.pos p~0) with (2 * Z.pos p). rewrite Z.log2_double by lia. lia.
Qed.

Lemma Zdigits2_log2 z : 0 < z → Zdigits2 z = Z.log2 z + 1.
Proof. destruct z; try lia. intros _. apply digits2_pos_log2. Qed.

Lemma shr_1_div2 r : 0 ≤ shr_m r → shr_m (shr_1 r) = shr_m r / 2.
Proof.
  rewrite <- Z.div2_div. destruct r as [[|[p|p|]|p] b1 b2]; cbn; (reflexivity || lia).
Qed.

Lemma iter_pos_shr_1_div p r :
  0 ≤ shr_m r → shr_m (SpecFloat.iter_pos shr_1 p r) = shr_m r / 2 ^ Z.pos p.
Proof.
  revert r. induction p as [p IH|p IH|]; intros r Hr; cbn [SpecFloat.iter_pos].
  - rewrite IH, IH, shr_1_div2 by (repeat apply iter_pos_shr_1_nonneg; try apply shr_1_nonneg; done).
    rewrite !Z.div_div by (try apply Z.pow_pos_nonneg; lia).
    f_equal. replace (Z.pos p~1) with (Z.pos p + Z.pos p + 1) by lia.
    rewrite !Z.pow_add_r, Z.pow_1_r by lia. ring.
  - rewrite IH, IH by (repeat apply iter_pos_shr_1_nonneg; done).
    rewrite !Z.div_div by (try apply Z.pow_pos_nonneg; lia).
    f_equal. replace (Z.pos p~0) with (Z.pos p + Z.pos p) by lia.
    rewrite !Z.pow_add_r by lia. ring.
  - rewrite shr_1_div2 by done. reflexivity.
Qed.

Lemma shr_spec r e n :
  0 ≤ shr_m r → 0 ≤ n →
  shr_m (fst (shr r e n)) = shr_m r / 2 ^ n ∧ snd (shr r e n) = e + n.
Proof.
  intros Hr Hn. destruct n as [|p|p]; cbn [shr fst snd]; [|by rewrite iter_pos_shr_1_div|lia].
  rewrite Z.pow_0_r, Z.div_1_r. lia.
Qed.

Lemma round_nearest_even_le m l : round_nearest_even m l ≤ m + 1.
Proof.
  destruct l as [|[]]; cbn [round_nearest_even]; try lia.
  destruct (Z.even m); lia.
Qed.

Lemma fexp_le x b : x - prec ≤ b → emin prec emax ≤ b → fexp prec emax x ≤ b.
Proof. unfold fexp. lia. Qed.

Lemma Zdigits2_round_bound mz n l :
  0 < mz → 0 ≤ n →
  Zdigits2 (round_nearest_even (mz / 2 ^ n) l) ≤ Z.max 2 (Zdigits2 mz - n + 1).
Proof.
  intros Hmz Hn.
  assert (Hq : 0 ≤ mz / 2 ^ n) by (apply Z.div_pos; [lia|by apply Z.pow_pos_nonneg]).
  assert (Hr0 := round_nearest_even_nonneg (mz / 2 ^ n) l Hq).
  assert (Hr1 := round_nearest_even_le (mz / 2 ^ n) l).
  destruct (Z.eq_dec (round_nearest_even (mz / 2 ^ n) l) 0) as [->|Hne]; [cbn; lia|].
  rewrite Zdigits2_log2 by lia. rewrite (Zdigits2_log2 mz) by lia.
  assert (Hlog : Z.log2 (round_nearest_even (mz / 2 ^ n) l) ≤ Z.log2 (mz / 2 ^ n) + 1).
  { etransitivity; [apply Z.log2_le_mono, Hr1|]. apply Z.log2_succ_le. }
  assert (Hsh : Z.log2 (mz / 2 ^ n) = Z.max 0 (Z.log2 mz - n)).
  { rewrite <- Z.shiftr_div_pow2 by lia. apply Z.log2_shiftr. lia. }
  lia.
Qed.

Lemma binary_round_aux_finite s mz ez :
  0 < mz →
  ez ≤ fexp prec emax (Zdigits2 mz + ez) →
  Zdigits2 mz + ez ≤ 1022 →
  ∀ s', binary_round_aux prec emax s mz ez loc_Exact ≠ S754_infinity s'.
Proof.
  intros Hmz Hez Hd s'. unfold binary_round_aux, shr_fexp.
  set (F := fexp prec emax (Zdigits2 mz + ez)) in *.
  assert (HF : F ≤ 969) by (apply fexp_le; unfold prec, emin, emax; lia).
  destruct (shr_spec (shr_record_of_loc mz loc_Exact) ez (F - ez)) as [Hm1 He1];
    [cbn; lia|lia|].
  destruct (shr (shr_record_of_loc mz loc_Exact) ez (F - ez)) as [mrs' e'].
  cbn [fst snd] in Hm1, He1. cbn [shr_record_of_loc shr_m] in Hm1.
  assert (He' : e' = F) by lia. clear He1. subst e'.
  set (mr := round_nearest_even (shr_m mrs') (loc_of_shr_record mrs')).
  assert (Hmr : Zdigits2 mr ≤ Z.max 2 (Zdigits2 mz - (F - ez) + 1)).
  { subst mr. rewrite Hm1. apply Zdigits2_round_bound; lia. }
  assert (Hmr0 : 0 ≤ mr).
  { subst mr. apply round_nearest_even_nonneg. rewrite Hm1.
    apply Z.div_pos; [lia|apply Z.pow_pos_nonneg; lia]. }
  set (F2 := fexp prec emax (Zdigits2 mr + F)).
  assert (HF2 : F2 ≤ 971) by (apply fexp_le; unfold prec, emin, emax; lia).
  assert (He2 : snd (shr (shr_record_of_loc mr loc_Exact) F (F2 - F)) ≤ 971).
  { destruct (F2 - F) as [|q|q] eqn:Hq; cbn [shr snd]; lia. }
  destruct (shr (shr_record_of_loc mr loc_Exact) F (F2 - F)) as [mrs'' e''].
  cbn [snd] in He2.
  destruct (shr_m mrs''); [done| |done].
  destruct (Z.leb_spec e'' (emax - prec)); [done|]. unfold emax, prec in *. lia.
Qed.

Lemma iter_xO_pow2 m d : Z.pos (Pos.iter xO m d) = Z.pos m * 2 ^ Z.pos d.
Proof.
  induction d as [|d IH] using Pos.peano_ind.
  - cbn. lia.
  - rewrite Pos.iter_succ, Pos2Z.inj_xO, IH, Pos2Z.inj_succ, Z.pow_succ_r by lia. ring.
Qed.

Lemma binary_round_finite s m e :
  Z.log2 (Z.pos m) + 1 + e ≤ 1022 →
  ∀ s', binary_round prec emax s m e ≠ S754_infinity s'.
Proof.
  intros Hd s'. unfold binary_round, shl_align.
  set (F := fexp prec emax (Z.pos (digits2_pos m) + e)).
  assert (Hdm := digits2_pos_log2 m).
  destruct (F - e) as [|q|q] eqn:Hq.
  - apply binary_round_aux_finite; [lia| |]; cbn [Zdigits2]; fold F; lia.
  - apply binary_round_aux_finite; [lia| |]; cbn [Zdigits2]; fold F; lia.
  - assert (Hlog : Z.log2 (Z.pos (Pos.iter xO m q)) = Z.pos q + Z.log2 (Z.pos m)).
    { rewrite iter_xO_pow2. apply Z.log2_mul_pow2; lia. }
    assert (Hdz : Z.pos (digits2_pos (Pos.iter xO m q)) + F = Z.pos (digits2_pos m) + e).
    { rewrite !digits2_pos_log2, Hlog. lia. }
    apply binary_round_aux_finite; [lia| |]; cbn [Zdigits2]; rewrite Hdz; fold F; lia.
Qed.

Lemma percentage_le_1_log2 m e :
  Number.leb (S754_finite false m e) (Number.of_Z 1) = true →
  Z.log2 (Z.pos m) + e ≤ 0.
Proof.
  unfold Number.leb.
  rewrite (compare_finite_of_Z (S754_finite false m e) 1 (Z.pos m, e) eq_refl).
  unfold compare_parts. cbn [fst snd]. intros H.
  assert (Hle : Z.pos m * 2 ^ (e - e `min` 0) ≤ 1 * 2 ^ (0 - e `min` 0)).
  { apply Z.compare_le_iff. intros E. rewrite E in H. discriminate H. }
  clear H. destruct (Z.le_gt_cases e 0) as [He|He].
  - rewrite Z.min_l in Hle by lia.
    replace (e - e) with 0 in Hle by lia. replace (0 - e) with (- e) in Hle by lia.
    rewrite Z.pow_0_r, Z.mul_1_r, Z.mul_1_l in Hle.
    apply Z.log2_le_mono in Hle. rewrite Z.log2_pow2 in Hle by lia. lia.
  - rewrite Z.min_r in Hle by lia.
    replace (0 - 0) with 0 in Hle by lia. rewrite Z.pow_0_r, Z.sub_0_r in Hle.
    assert (2 ^ 1 ≤ 2 ^ e) by (apply Z.pow_le_mono_r; lia). nia.
Qed.

(** The product of a length below 2^53 and a percentage of (0, 1] does
    not overflow. *)
Lemma mul_percentage_finite n m e :
  Z.of_nat n < 2 ^ 53 →
  Number.leb (S754_finite false m e) (Number.of_Z 1) = true →
  is_Some (floor_Z (Number.mul (Number.of_nat n) (S754_finite false m e))).
Proof.
  intros Hn Hle. apply percentage_le_1_log2 in Hle.
  unfold Number.of_nat. destruct (Z.of_nat n) as [|q|q] eqn:Hq; [by eexists| |lia].
  cbn [Number.of_Z].
  replace (Number.mul (S754_finite false q 0) (S754_finite false m e))
    with (binary_round prec emax false (q * m) (0 + e)) by reflexivity.
  assert (Hfin := binary_round_finite false (q * m) (0 + e)).
  assert (Hsign := binary_round_sign false (q * m) (0 + e)).
  destruct Hsign as [->|[(m' & e' & ->)|Hinf]]; [by eexists|by eexists|].
  exfalso. revert Hinf. apply Hfin.
  rewrite Pos2Z.inj_mul.
  assert (Hmul := Z.log2_mul_above (Z.pos q) (Z.pos m) ltac:(lia) ltac:(lia)).
  assert (Hq53 : Z.log2 (Z.pos q) < 53) by (apply Z.log2_lt_pow2; lia).
  lia.
Qed.

End RoundingFacts.

(** ** Slices *)

Module SliceFacts.
Import RoundingFacts.

Lemma take_clamped {A} (l : list A) c :
  0 ≤ c → take (Z.to_nat (c `min` Z.of_nat (length l))) l = take (Z.to_nat c) l.
Proof.
  intros Hc. destruct (Z.le_gt_cases c (Z.of_nat (length l))) as [Hle|Hgt].
  - by rewrite Z.min_l.
  - rewrite Z.min_r by lia. rewrite Nat2Z.id, firstn_all. symmetry. apply take_ge. lia.
Qed.

(** [slice(0, Math.floor(x))] keeps the first [floor x] elements. *)
Lemma slice0_floor {A} (l : list A) x count :
  floor_Z x = Some count → 0 ≤ count →
  Array_slice0 l (Math_floor x) = take (Z.to_nat count) l.
Proof.
  intros Hf Hc. unfold Array_slice0.
  destruct x as [s| | |s m e]; try discriminate Hf; injection Hf as Hf.
  - subst count. cbn [Math_floor ToIntegerOrInfinity Z.ltb Z.compare].
    by apply take_clamped.
  - cbn [Math_floor]. rewrite Hf. destruct count as [|q|q]; [| |lia].
    + cbn [ToIntegerOrInfinity Z.ltb Z.compare]. by apply take_clamped.
    + cbn [Number.of_Z ToIntegerOrInfinity cond_Zopp Z.shiftl Z.ltb Z.compare].
      by apply take_clamped.
Qed.

Lemma slice0_Infinity {A} (l : list A) : Array_slice0 l (Math_floor Infinity) = l.
Proof.
  unfold Array_slice0. cbn [Math_floor Infinity ToIntegerOrInfinity].
  rewrite Nat2Z.id. apply firstn_all.
Qed.

Lemma slice0_NaN {A} (l : list A) : Array_slice0 l (Math_floor NaN) = [].
Proof.
  unfold Array_slice0. cbn [Math_floor NaN ToIntegerOrInfinity Z.ltb Z.compare].
  by rewrite Z.min_l by lia.
Qed.

Lemma floor_Z_has_sign x :
  has_sign false x →
  match floor_Z x with
  | Some count => 0 ≤ count
  | None => x = Infinity
  end.
Proof.
  intros [->|[(m & e & ->)| ->]]; cbn [floor_Z]; [done| |done].
  unfold signed. cbn [cond_Zopp]. by apply Z.shiftl_nonneg.
Qed.

End SliceFacts.

(** ** The filtered provider *)

Module CryptoFacts.
Import NumberFacts JsSetFacts MaxLengthFacts ProviderFacts RoundingFacts SliceFacts.

Lemma compare_total x y :
  x ≠ NaN → y ≠ NaN → ∃ c, Number.compare x y = Some c.
Proof.
  intros Hx Hy. destruct x as [?|[]| |], y as [?|[]| |]; try done; cbn; eauto.
Qed.

(** The constructor's check of [maxLength] rejects exactly the numbers
    that are not positive integers. *)
Lemma maxLength_check l :
  Number.leb l (Number.of_Z 0) || negb (isInteger l) = false ↔ is_positive_integer l.
Proof.
  rewrite orb_false_iff, negb_false_iff. split.
  - intros [Hle Hint]. destruct l as [s| | |s m e]; try discriminate Hint.
    { by destruct s. }
    destruct s.
    { exfalso. revert Hle. unfold Number.leb.
      rewrite (compare_finite (S754_finite true m e) (Number.of_Z 0)
                 (signed true m, e) (0, 0) eq_refl eq_refl).
      by rewrite compare_parts_antisym, zero_lt_negative. }
    cbn [isInteger] in Hint. destruct (Z.leb_spec 0 e) as [He|He].
    + exists (Z.pos m * 2 ^ e). split; [nia|].
      rewrite (compare_finite_of_Z (S754_finite false m e) _ (Z.pos m, e) eq_refl). f_equal.
      unfold compare_parts. cbn [fst snd]. apply Z.compare_eq_iff.
      rewrite Z.min_r by lia. by rewrite !Z.sub_0_r, Z.pow_0_r, Z.mul_1_r.
    + apply Z.eqb_eq in Hint.
      assert (Hpow : 0 < 2 ^ (- e)) by (apply Z.pow_pos_nonneg; lia).
      exists (Z.pos m / 2 ^ (- e)).
      assert (Hm : Z.pos m = 2 ^ (- e) * (Z.pos m / 2 ^ (- e))).
      { rewrite (Z.div_mod (Z.pos m) (2 ^ (- e))) at 1 by lia. lia. }
      split; [nia|].
      rewrite (compare_finite_of_Z (S754_finite false m e) _ (Z.pos m, e) eq_refl). f_equal.
      unfold compare_parts. cbn [fst snd]. apply Z.compare_eq_iff.
      rewrite Z.min_l by lia.
      replace (e - e) with 0 by lia. replace (0 - e) with (- e) by lia.
      rewrite Z.pow_0_r, Z.mul_1_r, (Z.mul_comm _ (2 ^ _)). exact Hm.
  - intros (k & Hk & Hc). destruct l as [s|s| |s m e].
    + rewrite (compare_finite_of_Z (S754_zero s) _ (0, 0) eq_refl) in Hc. injection Hc as Hc.
      unfold compare_parts in Hc. cbn [fst snd] in Hc. apply Z.compare_eq_iff in Hc.
      rewrite Z.min_id, Z.sub_diag, Z.pow_0_r in Hc. lia.
    + destruct s, k; discriminate Hc.
    + discriminate Hc.
    + rewrite (compare_finite_of_Z (S754_finite s m e) _ (signed s m, e) eq_refl) in Hc. injection Hc as Hc.
      unfold compare_parts in Hc. cbn [fst snd] in Hc. apply Z.compare_eq_iff in Hc.
      assert (Hp1 : 0 < 2 ^ (e - e `min` 0)) by (apply Z.pow_pos_nonneg; lia).
      assert (Hp2 : 0 < 2 ^ (0 - e `min` 0)) by (apply Z.pow_pos_nonneg; lia).
      destruct s; unfold signed in Hc; cbn [cond_Zopp] in Hc; [nia|].
      split.
      * unfold Number.leb.
        rewrite (compare_finite (S754_finite false m e) (Number.of_Z 0)
                   (signed false m, e) (0, 0) eq_refl eq_refl).
        unfold compare_parts, signed. cbn [fst snd cond_Zopp].
        assert (Hgt : Z.pos m * 2 ^ (e - e `min` 0) > 0 * 2 ^ (0 - e `min` 0)) by nia.
        by rewrite Hgt.
      * cbn [isInteger]. destruct (Z.leb_spec 0 e) as [He|He]; [done|].
        apply Z.eqb_eq. rewrite Z.min_l in Hc by lia.
        replace (e - e) with 0 in Hc by lia. replace (0 - e) with (- e) in Hc by lia.
        rewrite Z.pow_0_r, Z.mul_1_r in Hc.
        rewrite Hc. apply Z.mod_mul. lia.
Qed.

(** The constructor's check of [percentage] lets through the numbers of
    (0, 1], and NaN. *)
Lemma percentage_check p :
  Number.leb p (Number.of_Z 0) || Number.gtb p (Number.of_Z 1) = false ↔
  in_unit_interval p ∨ p = NaN.
Proof.
  split.
  - intros H. apply orb_false_iff in H as [H0 H1].
    assert (Hnan : p = NaN ∨ p ≠ NaN) by (destruct p; (by left) || by right).
    destruct Hnan as [->|Hp]; [by right|left].
    unfold in_unit_interval, Number.gtb, Number.leb, Number.ltb in *.
    destruct (compare_total p (Number.of_Z 0) Hp ltac:(done)) as [c0 E0].
    destruct (compare_total (Number.of_Z 1) p ltac:(done) Hp) as [c1 E1].
    rewrite E0 in H0. rewrite E1 in H1.
    apply compare_antisym in E0, E1. rewrite E0, E1.
    by destruct c0, c1.
  - intros [[H0 H1]| ->]; [|done]. by apply percentage_in_range.
Qed.

(** When the constructor throws. *)
Lemma new_CryptocurrencyProvider_throws cryptoSymbols options :
  throws (new_CryptocurrencyProvider cryptoSymbols options) ↔
  (is_Some (opt_maxLength options) ∧ is_Some (opt_percentage options)) ∨
  (∃ l, opt_maxLength options = Some l ∧
        Number.leb l (Number.of_Z 0) || negb (isInteger l) = true) ∨
  (∃ p, opt_percentage options = Some p ∧
        Number.leb p (Number.of_Z 0) || Number.gtb p (Number.of_Z 1) = true).
Proof.
  unfold new_CryptocurrencyProvider.
  destruct options as [[l|] [p|]]; cbn [opt_maxLength opt_percentage].
  - destruct (_ || negb _); [|destruct (_ || _)]; cbn [throws];
      (split; [intros _; left; split; eauto|done]).
  - destruct (_ || negb _) eqn:Hl; cbn [throws]; split; try done.
    + intros _. right. left. eauto.
    + intros [[_ [? ?]]|[(l' & [= <-] & Hl')|(p & ? & _)]]; congruence.
  - destruct (_ || _) eqn:Hp; cbn [throws]; split; try done.
    + intros _. right. right. eauto.
    + intros [[[? ?] _]|[(l & ? & _)|(p' & [= <-] & Hp')]]; congruence.
  - cbn [throws]. split; [done|].
    intros [[[? ?] _]|[(l & ? & _)|(p & ? & _)]]; congruence.
Qed.

(** What a valid percentage alone constructs. *)
Lemma new_CryptocurrencyProvider_percentage cryptoSymbols p :
  Number.leb p (Number.of_Z 0) || Number.gtb p (Number.of_Z 1) = false →
  new_CryptocurrencyProvider cryptoSymbols (only_percentage p) =
  let distinct := JsSet.of_list cryptoSymbols in
  let selected :=
    JsSet.of_list
      (Array_slice0 distinct
         (Math_floor (Number.mul (Number.of_nat (length distinct)) p))) in
  Return {| crypto_validCodes := selected;
            crypto_maxLength := max_code_length selected |}.
Proof.
  intros H. unfold new_CryptocurrencyProvider, only_percentage, JsSet.to_array.
  cbn [opt_maxLength opt_percentage]. by rewrite H.
Qed.

Lemma NoDup_slice0 (l : list string) x : NoDup l → NoDup (Array_slice0 l x).
Proof.
  intros H. unfold Array_slice0. eapply sublist_NoDup; [exact H|apply sublist_take].
Qed.

End CryptoFacts.

Section Filtered.
Import NumberFacts JsSetFacts MaxLengthFacts ProviderFacts RoundingFacts SliceFacts
  CryptoFacts.

(** C4 (amended). For a CryptocurrencyProvider given only a percentage
    [P] in (0, 1], the resulting code set is the first [count] codes of
    the source list from which repeated codes have been removed (the
    first occurrence kept), in that order, where
    [count = floor(sourceSize * P)], the product is the double-precision
    one and [sourceSize] is the number of distinct codes.  When the
    source list has no repeated code this is the first
    [floor(sourceSize * P)] codes of the source list itself.  The
    product is finite for every length below 2^53; were it to overflow
    to +Infinity, every code would be kept. *)
Theorem percentage_keeps_prefix (cryptoSymbols : list string) (P : number) :
  in_unit_interval P →
  ∃ this,
    new_CryptocurrencyProvider cryptoSymbols (only_percentage P) = Return this ∧
    let distinct := JsSet.of_list cryptoSymbols in
    let product := Number.mul (Number.of_nat (length distinct)) P in
    (NoDup cryptoSymbols → distinct = cryptoSymbols) ∧
    (Z.of_nat (length distinct) < 2 ^ 53 → is_Some (floor_Z product)) ∧
    match floor_Z product with
    | Some count =>
        0 ≤ count ∧
        getValidCodes (Crypto_provider this) = take (Z.to_nat count) distinct
    | None =>
        product = Infinity ∧ getValidCodes (Crypto_provider this) = distinct
    end.
Proof.
  intros [H0 H1]. destruct (percentage_in_range P H0 H1) as [(m & e & ->) Hcheck].
  rewrite (new_CryptocurrencyProvider_percentage _ _ Hcheck).
  eexists. split; [reflexivity|]. cbn zeta.
  split; [apply of_list_NoDup|].
  split; [intros Hlen; by apply mul_percentage_finite|].
  cbn [Crypto_provider getValidCodes crypto_validCodes]. rewrite of_list_idemp.
  set (distinct := JsSet.of_list cryptoSymbols).
  set (product := Number.mul (Number.of_nat (length distinct)) (S754_finite false m e)).
  assert (Hsign : has_sign false product) by apply mul_of_nat_positive.
  assert (Hnd : NoDup distinct) by apply NoDup_of_list.
  rewrite (of_list_NoDup _ (NoDup_slice0 distinct (Math_floor product) Hnd)).
  assert (Hf := floor_Z_has_sign product Hsign).
  destruct (floor_Z product) as [count|] eqn:Hfl.
  - split; [done|]. by apply slice0_floor.
  - split; [done|]. rewrite Hf. apply slice0_Infinity.
Qed.

(** C5 (amended). An empty resulting code set is not an error.  When
    the percentage is so small that [floor(sourceSize * P) = 0], the
    constructor returns a provider with no code; and whenever the
    constructor returns a provider with no code, its [getMaxLength()] is
    -Infinity, the value of [Math.max()]. *)
Theorem empty_result_is_constructed (cryptoSymbols : list string) :
  (∀ P, in_unit_interval P →
        floor_Z (Number.mul (Number.of_nat (length (JsSet.of_list cryptoSymbols))) P)
          = Some 0 →
        ∃ this,
          new_CryptocurrencyProvider cryptoSymbols (only_percentage P) = Return this ∧
          getValidCodes (Crypto_provider this) = [] ∧
          getMaxLength (Crypto_provider this) = NegInfinity) ∧
  (∀ options this,
     new_CryptocurrencyProvider cryptoSymbols options = Return this →
     getValidCodes (Crypto_provider this) = [] →
     getMaxLength (Crypto_provider this) = NegInfinity).
Proof.
  assert (Hgen : ∀ options this,
             new_CryptocurrencyProvider cryptoSymbols options = Return this →
             getValidCodes (Crypto_provider this) = [] →
             getMaxLength (Crypto_provider this) = NegInfinity).
  { intros options this H Hnil.
    destruct (constructed_max_code_length (Crypto_provider this)) as [_ Hm];
      [by econstructor|].
    by rewrite Hm, Hnil. }
  split; [|exact Hgen].
  intros P [H0 H1] Hfl.
  destruct (percentage_in_range P H0 H1) as [_ Hcheck].
  destruct (new_CryptocurrencyProvider cryptoSymbols (only_percentage P))
    as [this|] eqn:Hnew.
  2:{ rewrite (new_CryptocurrencyProvider_percentage _ _ Hcheck) in Hnew.
      discriminate Hnew. }
  exists this. split; [done|].
  assert (Hnil : getValidCodes (Crypto_provider this) = []).
  { rewrite (new_CryptocurrencyProvider_percentage _ _ Hcheck) in Hnew.
    cbn zeta in Hnew. injection Hnew as <-.
    cbn [Crypto_provider getValidCodes crypto_validCodes].
    by rewrite (slice0_floor _ _ 0 Hfl). }
  split; [done|]. by apply (Hgen _ _ Hnew).
Qed.

(** C6. Construction errors.  CryptocurrencyProvider throws exactly on
    the documented configurations (both filters given, a max length that
    is not a positive integer, a percentage outside (0, 1]) with one
    exception: given only the percentage NaN, which is outside (0, 1], it
    throws nothing and returns a provider with no code, whose max length
    is -Infinity.  MultiCurrencyProvider throws exactly on the empty
    list. *)
Theorem construction_errors
  (cryptoSymbols : list string) (options : CryptoOptions)
  (providers : list CurrencyProvider) :
  (throws (new_CryptocurrencyProvider cryptoSymbols options) ↔
   invalid_configuration options ∧ options ≠ only_percentage NaN) ∧
  (invalid_configuration (only_percentage NaN) ∧
   new_CryptocurrencyProvider cryptoSymbols (only_percentage NaN) =
     Return {| crypto_validCodes := []; crypto_maxLength := NegInfinity |}) ∧
  (throws (new_MultiCurrencyProvider providers) ↔ providers = []).
Proof.
  split_and!.
  - rewrite new_CryptocurrencyProvider_throws. unfold invalid_configuration. split.
    + intros [Hboth|[(l & Hl & Hc)|(p & Hp & Hc)]].
      * split; [by left|]. intros ->. by destruct Hboth as [[? [=]] _].
      * split.
        -- right. left. exists l. split; [done|]. rewrite <- maxLength_check. congruence.
        -- intros ->. discriminate Hl.
      * split.
        -- right. right. exists p. split; [done|]. intros Hin.
           assert (Hf := proj2 (percentage_check p) (or_introl Hin)). congruence.
        -- intros ->. injection Hp as <-. discriminate Hc.
    + intros [[Hboth|[(l & Hl & Hc)|(p & Hp & Hc)]] Hne].
      * by left.
      * right. left. exists l. split; [done|].
        destruct (_ || negb _) eqn:E; [done|]. by apply maxLength_check in E.
      * destruct (opt_maxLength options) as [l|] eqn:Hl.
        { left. split; [by eexists|]. rewrite Hp. by eexists. }
        right. right. exists p. split; [done|].
        destruct (_ || _) eqn:E; [done|].
        apply percentage_check in E as [E| ->]; [done|].
        destruct Hne. destruct options. cbn in *. by subst.
  - right. right. exists NaN. split; [done|]. by intros [? _].
  - rewrite (new_CryptocurrencyProvider_percentage _ NaN eq_refl). cbn zeta.
    assert (Hnan : ∀ x, Number.mul x NaN = NaN) by (by intros []).
    rewrite Hnan. by rewrite slice0_NaN.
  - apply new_MultiCurrencyProvider_Throw.
Qed.

End Filtered.

(** ** The host instances *)

Module HostFacts.

Lemma ascii_upper_idemp c : ascii_upper (ascii_upper c) = ascii_upper c.
Proof. destruct c as [[] [] [] [] [] [] [] []]; reflexivity. Qed.

Lemma ascii_toUpperCase_idemp s :
  ascii_toUpperCase (ascii_toUpperCase s) = ascii_toUpperCase s.
Proof.
  induction s as [|c s IH]; [reflexivity|].
  cbn [ascii_toUpperCase]. by rewrite ascii_upper_idemp, IH.
Qed.

Lemma ascii_toUpperCase_length s :
  String.length (ascii_toUpperCase s) = String.length s.
Proof.
  induction s as [|c s IH]; [reflexivity|].
  cbn [ascii_toUpperCase String.length]. by rewrite IH.
Qed.

Lemma ascii_toUpperCase_length_le s :
  (String.length s ≤ String.length (ascii_toUpperCase s))%nat.
Proof. by rewrite ascii_toUpperCase_length. Qed.

End HostFacts.

(** ** Closed instances *)

Section Instances.
Import JsSetFacts HostFacts.

Local Abbreviation schema := (currencySchema ascii_toUpperCase integral_toString).
Local Abbreviation factory := (createCurrencySchema ascii_toUpperCase integral_toString).

(** C1 as stated fails: a custom provider whose bound is shorter than
    one of its codes rejects that code, an empty code is rejected by the
    emptiness check, and a custom provider whose bound is NaN rejects
    each of its codes. *)
Lemma valid_code_any_case_counterexample :
  ("CUSTOM" ∈ getValidCodes shortBoundProvider ∧
   ascii_toUpperCase "custom" = "CUSTOM" ∧
   ∃ sch,
     factory sampleFiat {| provider := Some (inl shortBoundProvider); message := None |}
       = Return sch ∧
     Zod.safeParse sch "custom" =
       Zod.Failure ["Currency code cannot exceed 3 characters"]) ∧
  ("" ∈ getValidCodes (fiatProvider [""; "USD"]) ∧
   ascii_toUpperCase "" = "" ∧
   ∃ sch,
     factory [""; "USD"] {| provider := None; message := None |} = Return sch ∧
     Zod.safeParse sch "" = Zod.Failure ["Currency code cannot be empty"]) ∧
  ("USD" ∈ getValidCodes nanBoundProvider ∧
   ascii_toUpperCase "usd" = "USD" ∧
   ∃ sch,
     factory sampleFiat {| provider := Some (inl nanBoundProvider); message := None |}
       = Return sch ∧
     Zod.safeParse sch "usd" =
       Zod.Failure ["Currency code cannot exceed NaN characters"]).
Proof.
  split_and!; try (by apply has_true); try reflexivity;
    eexists; (split; [reflexivity|]); reflexivity.
Qed.

Lemma valid_code_any_case_witness :
  (∀ x, ascii_toUpperCase (ascii_toUpperCase x) = ascii_toUpperCase x) ∧
  (∀ x, (String.length x ≤ String.length (ascii_toUpperCase x))%nat) ∧
  ascii_toUpperCase "" = "" ∧
  finalProvider sampleFiat {| provider := None; message := None |} =
    Return (fiatProvider sampleFiat) ∧
  (constructed (fiatProvider sampleFiat) ∨
   within_max_length (fiatProvider sampleFiat)) ∧
  "USD" ∈ getValidCodes (fiatProvider sampleFiat) ∧
  "USD" ≠ "" ∧
  ascii_toUpperCase "uSd" = "USD" ∧
  ∃ sch,
    factory sampleFiat {| provider := None; message := None |} = Return sch ∧
    Zod.safeParse sch "uSd" = Zod.Success (ascii_toUpperCase "USD") ∧
    ascii_toUpperCase "USD" = "USD".
Proof.
  assert (Hhon : constructed (fiatProvider sampleFiat) ∨
                 within_max_length (fiatProvider sampleFiat)).
  { left. constructor. }
  assert (Hin : "USD" ∈ getValidCodes (fiatProvider sampleFiat)) by by apply has_true.
  split_and!;
    [exact ascii_toUpperCase_idemp|exact ascii_toUpperCase_length_le|reflexivity
    |reflexivity|exact Hhon|exact Hin|discriminate|reflexivity|].
  exact (valid_code_any_case ascii_toUpperCase integral_toString sampleFiat
             {| provider := None; message := None |} (fiatProvider sampleFiat)
           "USD" "uSd" ascii_toUpperCase_idemp ascii_toUpperCase_length_le
           eq_refl eq_refl Hhon Hin ltac:(discriminate) eq_refl).
Defined.

(** C4 as stated fails on a source list with a repeated code: the count
    is taken of the distinct codes. *)
Lemma percentage_keeps_prefix_counterexample :
  in_unit_interval one_half ∧
  floor_Z (Number.mul (Number.of_nat (length repeatedCrypto)) one_half) = Some 2 ∧
  take 2 repeatedCrypto = ["BTC"; "ETH"] ∧
  ∃ this,
    new_CryptocurrencyProvider repeatedCrypto (only_percentage one_half) = Return this ∧
    getValidCodes (Crypto_provider this) = ["BTC"] ∧
    ¬ (∀ c, c ∈ getValidCodes (Crypto_provider this) ↔ c ∈ take 2 repeatedCrypto).
Proof.
  split; [split; reflexivity|].
  split; [reflexivity|]. split; [reflexivity|].
  eexists. split; [reflexivity|]. split; [reflexivity|].
  intros H. assert (Hin : "ETH" ∈ ["BTC"]) by (apply H; by apply has_true).
  by apply has_true in Hin.
Qed.

Lemma percentage_keeps_prefix_witness :
  in_unit_interval one_half ∧
  ∃ this,
    new_CryptocurrencyProvider sampleCrypto (only_percentage one_half) = Return this ∧
    let distinct := JsSet.of_list sampleCrypto in
    let product := Number.mul (Number.of_nat (length distinct)) one_half in
    (NoDup sampleCrypto → distinct = sampleCrypto) ∧
    (Z.of_nat (length distinct) < 2 ^ 53 → is_Some (floor_Z product)) ∧
    match floor_Z product with
    | Some count =>
        0 ≤ count ∧
        getValidCodes (Crypto_provider this) = take (Z.to_nat count) distinct
    | None =>
        product = Infinity ∧ getValidCodes (Crypto_provider this) = distinct
    end.
Proof.
  assert (H : in_unit_interval one_half) by (split; reflexivity).
  split; [exact H|]. exact (percentage_keeps_prefix sampleCrypto one_half H).
Defined.

(** C5 as stated fails: with three codes and the percentage 0.1 the
    count is [floor(0.30000000000000004) = 0]; nothing is thrown and the
    provider has no code. *)
Lemma empty_result_is_constructed_counterexample :
  in_unit_interval one_tenth ∧
  floor_Z (Number.mul (Number.of_nat (length ["BTC"; "ETH"; "LTC"])) one_tenth) = Some 0 ∧
  ¬ throws (new_CryptocurrencyProvider ["BTC"; "ETH"; "LTC"] (only_percentage one_tenth)) ∧
  new_CryptocurrencyProvider ["BTC"; "ETH"; "LTC"] (only_percentage one_tenth) =
    Return {| crypto_validCodes := []; crypto_maxLength := NegInfinity |} ∧
  Zod.safeParse
    (schema
       (Crypto_provider {| crypto_validCodes := []; crypto_maxLength := NegInfinity |})
       None) "BTC" =
    Zod.Failure
      ["Currency code cannot exceed -Infinity characters";
       "Invalid currency code. Must be a valid currency code from Cryptocurrency Provider."].
Proof.
  split; [split; reflexivity|]. split; [reflexivity|].
  split; [intros []|]. split; reflexivity.
Qed.

Lemma empty_result_is_constructed_witness :
  in_unit_interval one_tenth ∧
  floor_Z (Number.mul (Number.of_nat (length (JsSet.of_list ["BTC"; "ETH"; "LTC"])))
             one_tenth) = Some 0 ∧
  ∃ this,
    new_CryptocurrencyProvider ["BTC"; "ETH"; "LTC"] (only_percentage one_tenth)
      = Return this ∧
    getValidCodes (Crypto_provider this) = [] ∧
    getMaxLength (Crypto_provider this) = NegInfinity.
Proof.
  assert (H : in_unit_interval one_tenth) by (split; reflexivity).
  split_and!; [exact H|reflexivity|].
  exact (proj1 (empty_result_is_constructed ["BTC"; "ETH"; "LTC"]) one_tenth H eq_refl).
Defined.

(** C7 as stated fails: an empty custom message is given, and the
    default message is reported. *)
Lemma unknown_code_message_counterexample :
  "ABC" ≠ "" ∧
  Number.leb (code_length "ABC") (getMaxLength (fiatProvider sampleFiat)) = true ∧
  (ascii_toUpperCase "ABC" ∉ getValidCodes (fiatProvider sampleFiat)) ∧
  Zod.safeParse (schema (fiatProvider sampleFiat) (Some "")) "ABC" =
    Zod.Failure
      ["Invalid currency code. Must be a valid currency code from Fiat Currency Provider."] ∧
  Zod.safeParse (schema (fiatProvider sampleFiat) (Some "")) "ABC" ≠ Zod.Failure [""].
Proof.
  split; [discriminate|]. split; [reflexivity|].
  split; [by apply has_false|]. split; [reflexivity|discriminate].
Qed.

Lemma unknown_code_message_witness :
  "BTC" ≠ "" ∧
  Number.leb (code_length "BTC") (getMaxLength (fiatProvider sampleFiat)) = true ∧
  (ascii_toUpperCase "BTC" ∉ getValidCodes (fiatProvider sampleFiat)) ∧
  Zod.safeParse
    (schema (fiatProvider sampleFiat) (Some "Please enter a valid currency code")) "BTC" =
    Zod.Failure ["Please enter a valid currency code"].
Proof.
  assert (Hn : ascii_toUpperCase "BTC" ∉ getValidCodes (fiatProvider sampleFiat))
    by by apply has_false.
  split_and!; [done|reflexivity|exact Hn|].
  exact (unknown_code_message ascii_toUpperCase integral_toString
           (fiatProvider sampleFiat) (Some "Please enter a valid currency code") "BTC"
           ltac:(discriminate) eq_refl Hn).
Defined.

Lemma length_gates_witness :
  (Number.leb (code_length "DOLLAR") (getMaxLength (fiatProvider sampleFiat)) = false ∧
   Zod.safeParse (schema (fiatProvider sampleFiat) None) "DOLLAR" =
     Zod.Failure
       ["Currency code cannot exceed 3 characters";
        "Invalid currency code. Must be a valid currency code from Fiat Currency Provider."]) ∧
  (Number.leb (code_length "USD") (getMaxLength nanBoundProvider) = false ∧
   Zod.safeParse (schema nanBoundProvider None) "USD" =
     Zod.Failure ["Currency code cannot exceed NaN characters"]).
Proof.
  split; (split; [reflexivity|]).
  - exact (proj1 (proj2 (length_gates ascii_toUpperCase integral_toString
                           (fiatProvider sampleFiat) None)) "DOLLAR" eq_refl).
  - exact (proj1 (proj2 (length_gates ascii_toUpperCase integral_toString
                           nanBoundProvider None)) "USD" eq_refl).
Defined.

Lemma success_returns_member_witness :
  (∀ s, ascii_toUpperCase (ascii_toUpperCase s) = ascii_toUpperCase s) ∧
  ("EUR" ∈ getValidCodes lowerCaseProvider ∧ "EUR" = ascii_toUpperCase "eur") ∧
  Zod.safeParse (schema lowerCaseProvider None) "usd" ≠ Zod.Success "usd".
Proof.
  destruct (success_returns_member ascii_toUpperCase integral_toString
              lowerCaseProvider None ascii_toUpperCase_idemp) as [Hmem Hnot].
  split; [exact ascii_toUpperCase_idemp|]. split.
  - exact (Hmem "eur" "EUR" eq_refl).
  - apply (Hnot "usd"); [by apply has_true|discriminate].
Defined.

End Instances.

(** ** The definitions at work *)

Section Examples.

Local Abbreviation schema := (currencySchema ascii_toUpperCase integral_toString).
Local Abbreviation factory := (createCurrencySchema ascii_toUpperCase integral_toString).

(** [3 * 0.1] is [0.30000000000000004], as [SFmul] finds on the
    normalised operands. *)
Example mul_three_tenths :
  Number.mul (Number.of_nat 3) one_tenth = S754_finite false 5404319552844596 (-54) ∧
  SFmul prec emax (S754_finite false 6755399441055744 (-51)) one_tenth =
    S754_finite false 5404319552844596 (-54).
Proof. split; reflexivity. Qed.

Example floor_of_products :
  Math_floor (Number.mul (Number.of_nat 37) one_tenth) = Number.of_Z 3 ∧
  Math_floor (Number.mul (Number.of_nat 3) one_half) = Number.of_Z 1 ∧
  Math_floor (Number.mul (Number.of_nat 3) NaN) = NaN.
Proof. repeat split; reflexivity. Qed.

Example comparisons_with_NaN :
  Number.leb NaN (Number.of_Z 0) = false ∧ Number.gtb NaN (Number.of_Z 1) = false ∧
  isInteger NaN = false ∧ isInteger (S754_finite false 7 (-1)) = false ∧
  isInteger (S754_finite false 3 1) = true.
Proof. repeat split; reflexivity. Qed.

Example Math_max_examples :
  Math_max [] = NegInfinity ∧
  max_code_length ["USD"; "USDT"; "BTC"] = Number.of_Z 4.
Proof. split; reflexivity. Qed.

Example set_keeps_first_occurrences :
  JsSet.of_list ["BTC"; "ETH"; "BTC"; "LTC"; "ETH"] = ["BTC"; "ETH"; "LTC"].
Proof. reflexivity. Qed.

Example maxLength_filter :
  new_CryptocurrencyProvider ["BTC"; "DOGE"; "ETH"; "USDT"]
    {| opt_maxLength := Some (Number.of_Z 3); opt_percentage := None |} =
  Return {| crypto_validCodes := ["BTC"; "ETH"]; crypto_maxLength := Number.of_Z 3 |}.
Proof. reflexivity. Qed.

Example rejected_configurations :
  new_CryptocurrencyProvider sampleCrypto
    {| opt_maxLength := Some (Number.of_Z 0); opt_percentage := None |} =
    Throw "maxLength must be a positive integer" ∧
  new_CryptocurrencyProvider sampleCrypto (only_percentage (Number.of_Z 0)) =
    Throw "percentage must be a number between 0 and 1" ∧
  new_CryptocurrencyProvider sampleCrypto
    {| opt_maxLength := Some (Number.of_Z 3); opt_percentage := Some one_half |} =
    Throw "Cannot specify both maxLength and percentage" ∧
  new_MultiCurrencyProvider [] = Throw "At least one provider must be specified".
Proof. repeat split; reflexivity. Qed.

(** The scenario of the fiat-only validator. *)
Example fiat_only_scenario :
  Zod.safeParse (schema (fiatProvider sampleFiat) None) "usd" = Zod.Success "USD" ∧
  Zod.safeParse (schema (fiatProvider sampleFiat) None) "BTC" =
    Zod.Failure
      ["Invalid currency code. Must be a valid currency code from Fiat Currency Provider."] ∧
  Zod.safeParse (schema (fiatProvider sampleFiat) None) "" =
    Zod.Failure
      ["Currency code cannot be empty";
       "Invalid currency code. Must be a valid currency code from Fiat Currency Provider."] ∧
  Zod.safeParse (schema (fiatProvider sampleFiat) None) "AAAA" =
    Zod.Failure
      ["Currency code cannot exceed 3 characters";
       "Invalid currency code. Must be a valid currency code from Fiat Currency Provider."].
Proof. repeat split; reflexivity. Qed.

Example provider_list_is_wrapped :
  ∃ sch,
    factory sampleFiat
      {| provider :=
           Some (inr [fiatProvider sampleFiat;
                      {| getValidCodes := ["BTC"; "DOGE"];
                         getMaxLength := Number.of_Z 4;
                         getName := "Cryptocurrency Provider" |}]);
         message := Some "Please enter a valid currency code" |} = Return sch ∧
    Zod.safeParse sch "doge" = Zod.Success "DOGE" ∧
    Zod.safeParse sch "eur" = Zod.Success "EUR" ∧
    Zod.safeParse sch "XYZ" = Zod.Failure ["Please enter a valid currency code"].
Proof. eexists. repeat split; reflexivity. Qed.

Example composite_name :
  match new_MultiCurrencyProvider [fiatProvider sampleFiat; shortBoundProvider] with
  | Return this =>
      getName (Multi_provider this) =
        "Multi Currency Provider (Fiat Currency Provider, Custom Provider)" ∧
      getValidCodes (Multi_provider this) =
        ["USD"; "EUR"; "GBP"; "JPY"; "CLF"; "CUSTOM"] ∧
      getMaxLength (Multi_provider this) = Number.of_Z 6
  | Throw _ => False
  end.
Proof. repeat split; reflexivity. Qed.

(** A bound that is NaN fails the length check of every input, and a
    one-element list recomputes the bound from the codes. *)
Example bound_NaN :
  Zod.safeParse (schema nanBoundProvider None) "usd" =
    Zod.Failure ["Currency code cannot exceed NaN characters"] ∧
  Zod.safeParse (schema nanBoundProvider None) "" =
    Zod.Failure
      ["Currency code cannot be empty";
       "Currency code cannot exceed NaN characters";
       "Invalid currency code. Must be a valid currency code from Custom Provider."] ∧
  ∃ wrapped,
    factory sampleFiat {| provider := Some (inr [nanBoundProvider]); message := None |}
      = Return wrapped ∧
    Zod.safeParse wrapped "usd" = Zod.Success "USD".
Proof. split; [reflexivity|]. split; [reflexivity|]. eexists. split; reflexivity. Qed.

Example bound_recomputed :
  ∃ direct wrapped,
    factory sampleFiat {| provider := Some (inl shortBoundProvider); message := None |}
      = Return direct ∧
    factory sampleFiat {| provider := Some (inr [shortBoundProvider]); message := None |}
      = Return wrapped ∧
    Zod.safeParse direct "custom" =
      Zod.Failure ["Currency code cannot exceed 3 characters"] ∧
    Zod.safeParse wrapped "custom" = Zod.Success "CUSTOM".
Proof. eexists _, _. repeat split; reflexivity. Qed.

End Examples.

(** * Further properties *)

(** ** The other configurations of the filtered provider *)

Module FilterFacts.
Import NumberFacts JsSetFacts MaxLengthFacts ProviderFacts RoundingFacts CryptoFacts.

(** A number that equals the integer [k] compares with the integers as
    [k] does. *)
Lemma compare_of_Z_integer l k z :
  Number.compare l (Number.of_Z k) = Some Eq →
  Number.compare (Number.of_Z z) l = Some (z ?= k).
Proof.
  intros Hl. destruct (parts l) as [[m e]|] eqn:Hparts.
  - rewrite (compare_finite_of_Z l k (m, e) Hparts) in Hl. injection Hl as Hl.
    rewrite (compare_finite (Number.of_Z z) l (z, 0) (m, e) (parts_of_Z z) Hparts).
    f_equal. unfold compare_parts in *. cbn [fst snd] in *.
    apply Z.compare_eq_iff in Hl. rewrite (Z.min_comm 0 e), Hl.
    assert (Hpow : 0 < 2 ^ (0 - e `min` 0)) by (apply Z.pow_pos_nonneg; lia).
    symmetry. apply Zmult_compare_compat_r. lia.
  - destruct l as [?|[]| |]; try discriminate Hparts; destruct k; discriminate Hl.
Qed.

Lemma leb_code_length_integer l k code :
  Number.compare l (Number.of_Z k) = Some Eq →
  Number.leb (code_length code) l = true ↔ Z.of_nat (String.length code) ≤ k.
Proof.
  intros Hl. unfold Number.leb, code_length, Number.of_nat.
  rewrite (compare_of_Z_integer l k _ Hl).
  destruct (Z.compare_spec (Z.of_nat (String.length code)) k); split; (lia || done).
Qed.

Lemma new_CryptocurrencyProvider_maxLength cryptoSymbols l :
  Number.leb l (Number.of_Z 0) || negb (isInteger l) = false →
  new_CryptocurrencyProvider cryptoSymbols (only_maxLength l) =
  let selected :=
    JsSet.of_list
      (filter (λ code, Number.leb (code_length code) l = true)
         (JsSet.of_list cryptoSymbols)) in
  Return {| crypto_validCodes := selected;
            crypto_maxLength := max_code_length selected |}.
Proof.
  intros H. unfold new_CryptocurrencyProvider, only_maxLength, JsSet.to_array.
  cbn [opt_maxLength opt_percentage]. by rewrite H.
Qed.

(** Whatever the options, the selected codes are a subsequence of the
    distinct source codes. *)
Lemma selected_sublist cryptoSymbols options this :
  new_CryptocurrencyProvider cryptoSymbols options = Return this →
  crypto_validCodes this `sublist_of` JsSet.of_list cryptoSymbols.
Proof.
  assert (Hnd := NoDup_of_list cryptoSymbols).
  unfold new_CryptocurrencyProvider, JsSet.to_array.
  destruct options as [[l|] [p|]]; cbn [opt_maxLength opt_percentage];
    repeat match goal with
      | |- context [if ?b then _ else _] => destruct b
      end;
    intros H; try discriminate H; injection H as <-.
  - rewrite of_list_NoDup by by apply NoDup_filter. apply sublist_filter.
  - rewrite of_list_NoDup by by apply NoDup_slice0. apply sublist_take.
  - done.
Qed.

End FilterFacts.

Section FilterProperties.
Import NumberFacts JsSetFacts MaxLengthFacts ProviderFacts CryptoFacts FilterFacts.

(** X1. Given only a max length that is a positive integer [k], the
    constructor returns a provider whose codes are the distinct source
    codes of length at most [k], in source order; its max length does
    not exceed [k]. *)
Theorem maxLength_keeps_short_codes (cryptoSymbols : list string) (l : number) (k : Z) :
  0 < k →
  Number.compare l (Number.of_Z k) = Some Eq →
  ∃ this,
    new_CryptocurrencyProvider cryptoSymbols (only_maxLength l) = Return this ∧
    getValidCodes (Crypto_provider this) =
      filter (λ code, Z.of_nat (String.length code) ≤ k) (JsSet.of_list cryptoSymbols) ∧
    (∀ code, code ∈ getValidCodes (Crypto_provider this) ↔
             code ∈ cryptoSymbols ∧ Z.of_nat (String.length code) ≤ k) ∧
    Number.leb (getMaxLength (Crypto_provider this)) l = true.
Proof.
  intros Hk Hl.
  assert (Hcheck : Number.leb l (Number.of_Z 0) || negb (isInteger l) = false).
  { apply maxLength_check. by exists k. }
  rewrite (new_CryptocurrencyProvider_maxLength _ _ Hcheck). cbn zeta.
  eexists. split; [reflexivity|].
  cbn [Crypto_provider getValidCodes getMaxLength crypto_validCodes crypto_maxLength].
  rewrite of_list_idemp.
  assert (Hfilter :
    filter (λ code, Number.leb (code_length code) l = true) (JsSet.of_list cryptoSymbols) =
    filter (λ code, Z.of_nat (String.length code) ≤ k) (JsSet.of_list cryptoSymbols)).
  { apply list_filter_iff. intros code. by apply leb_code_length_integer. }
  rewrite Hfilter.
  set (kept := filter (λ code, Z.of_nat (String.length code) ≤ k) (JsSet.of_list cryptoSymbols)).
  assert (Hnd : NoDup kept) by apply NoDup_filter, NoDup_of_list.
  rewrite (of_list_NoDup kept Hnd).
  assert (Hin : ∀ code, code ∈ kept ↔ code ∈ cryptoSymbols ∧ Z.of_nat (String.length code) ≤ k).
  { intros code. unfold kept. rewrite list_elem_of_filter, elem_of_of_list. tauto. }
  split_and!; [done|exact Hin|].
  destruct (max_code_length_spec kept) as (_ & Hatt & Hnil).
  destruct kept as [|c0 cs] eqn:Hkept.
  - rewrite Hnil by done.
    destruct (parts l) as [a|] eqn:Hp; [by destruct l|].
    destruct l as [?|[]| |]; try discriminate Hp; destruct k; discriminate Hl.
  - destruct (Hatt ltac:(done)) as (c & Hc & ->).
    apply (leb_code_length_integer l k c Hl). by apply Hin.
Qed.

(** X2. Filters only remove: whatever the accepted options, the codes
    of a CryptocurrencyProvider are a subsequence of the distinct source
    codes.  No code is invented, none is repeated and the source order
    is kept. *)
Theorem filters_only_remove
  (cryptoSymbols : list string) (options : CryptoOptions) (this : CryptocurrencyProvider) :
  new_CryptocurrencyProvider cryptoSymbols options = Return this →
  getValidCodes (Crypto_provider this) `sublist_of` JsSet.of_list cryptoSymbols ∧
  NoDup (getValidCodes (Crypto_provider this)) ∧
  (∀ code, code ∈ getValidCodes (Crypto_provider this) → code ∈ cryptoSymbols).
Proof.
  intros H. apply selected_sublist in H.
  assert (Hnd : NoDup (crypto_validCodes this)).
  { eapply sublist_NoDup; [apply NoDup_of_list|exact H]. }
  cbn [Crypto_provider getValidCodes]. rewrite (of_list_NoDup _ Hnd).
  split_and!; [exact H|exact Hnd|].
  intros code Hc. apply elem_of_of_list. eapply elem_of_sublist; [exact Hc|exact H].
Qed.

End FilterProperties.

(** ** Composites of any number of providers *)

Module CompositeFacts.
Import NumberFacts JsSetFacts MaxLengthFacts ProviderFacts.

Lemma elem_of_member_codes (providers : list CurrencyProvider) c :
  c ∈ concat (map getValidCodes providers) ↔
  ∃ p, p ∈ providers ∧ c ∈ getValidCodes p.
Proof.
  induction providers as [|q qs IH]; cbn [map concat].
  - split; [intros H; inversion H|intros (p & Hp & _); inversion Hp].
  - rewrite elem_of_app, IH. split.
    + intros [Hc|(p & Hp & Hc)]; [exists q; split; [left|done]|exists p; split; [by right|done]].
    + intros (p & Hp & Hc). apply elem_of_cons in Hp as [->|Hp]; [by left|right; eauto].
Qed.

Lemma member_codes_Permutation (providers providers' : list CurrencyProvider) :
  providers ≡ₚ providers' →
  concat (map getValidCodes providers) ≡ₚ concat (map getValidCodes providers').
Proof.
  induction 1 as [|p ps ps' _ IH|p q ps|ps ps' ps'' _ IH1 _ IH2]; cbn [map concat].
  - done.
  - by rewrite IH.
  - rewrite !app_assoc. f_equiv. apply Permutation_app_comm.
  - by rewrite IH1.
Qed.

Lemma new_MultiCurrencyProvider_nonempty providers :
  providers ≠ [] → ∃ this, new_MultiCurrencyProvider providers = Return this.
Proof.
  intros H. eexists. apply new_MultiCurrencyProvider_Return. split; [exact H|reflexivity].
Qed.

(** Inserting into a set only appends to it. *)
Lemma foldl_add_prefix l s : s `prefix_of` foldl JsSet.add s l.
Proof.
  revert s. induction l as [|x l IH]; intros s; cbn [foldl]; [done|].
  etransitivity; [|apply IH]. unfold JsSet.add.
  destruct (JsSet.has s x); [done|]. by apply prefix_app_r.
Qed.

Lemma of_list_app l l' :
  JsSet.of_list (l ++ l') = foldl JsSet.add (JsSet.of_list l) l'.
Proof. unfold JsSet.of_list. apply foldl_app. Qed.

Lemma of_list_app_of_list l l' :
  JsSet.of_list (JsSet.of_list l ++ l') = JsSet.of_list (l ++ l').
Proof. by rewrite !of_list_app, of_list_idemp. Qed.

End CompositeFacts.

Section CompositeProperties.
Import NumberFacts JsSetFacts MaxLengthFacts ProviderFacts CompositeFacts.

Variable toUpperCase : string → string.
Variable Number_toString : number → string.

Local Abbreviation schema := (currencySchema toUpperCase Number_toString).

(** X3. The codes of a composite over any list of providers are exactly
    the codes of its members, each of them once, and none of them is
    longer than the composite's max length. *)
Theorem composite_codes_of_members
  (providers : list CurrencyProvider) (this : MultiCurrencyProvider) :
  new_MultiCurrencyProvider providers = Return this →
  (∀ code, code ∈ getValidCodes (Multi_provider this) ↔
           ∃ p, p ∈ providers ∧ code ∈ getValidCodes p) ∧
  NoDup (getValidCodes (Multi_provider this)) ∧
  (∀ p code, p ∈ providers → code ∈ getValidCodes p →
             Number.gtb (code_length code) (getMaxLength (Multi_provider this)) = false).
Proof.
  intros H. assert (Hb : constructed (Multi_provider this)) by by econstructor.
  destruct (Multi_provider_codes _ _ H) as [Hc _].
  assert (Hin : ∀ code, code ∈ getValidCodes (Multi_provider this) ↔
                        ∃ p, p ∈ providers ∧ code ∈ getValidCodes p).
  { intros code. by rewrite Hc, elem_of_of_list, elem_of_member_codes. }
  split_and!; [exact Hin|rewrite Hc; apply NoDup_of_list|].
  intros p code Hp Hcode. apply (constructed_honours_max_length _ Hb).
  apply Hin. eauto.
Qed.

(** X4. Reordering the providers of a composite changes neither its set
    of codes, nor its max length, nor the inputs it accepts and the values
    it returns (only the order of the codes and the name follow the
    list). *)
Theorem composite_permutation
  (providers providers' : list CurrencyProvider) (this : MultiCurrencyProvider) :
  providers ≡ₚ providers' →
  new_MultiCurrencyProvider providers = Return this →
  ∃ this',
    new_MultiCurrencyProvider providers' = Return this' ∧
    getValidCodes (Multi_provider this) ≡ₚ getValidCodes (Multi_provider this') ∧
    getMaxLength (Multi_provider this) = getMaxLength (Multi_provider this') ∧
    ∀ msg msg' s out,
      Zod.safeParse (schema (Multi_provider this) msg) s = Zod.Success out ↔
      Zod.safeParse (schema (Multi_provider this') msg') s = Zod.Success out.
Proof.
  intros Hperm H.
  assert (Hne : providers' ≠ []).
  { intros ->. apply Permutation_nil_r in Hperm as ->. discriminate H. }
  destruct (new_MultiCurrencyProvider_nonempty providers' Hne) as [this' H'].
  exists this'. split; [exact H'|].
  destruct (Multi_provider_codes _ _ H) as [Hc Hm].
  destruct (Multi_provider_codes _ _ H') as [Hc' Hm'].
  assert (Hset : ∀ c, c ∈ JsSet.of_list (concat (map getValidCodes providers)) ↔
                      c ∈ JsSet.of_list (concat (map getValidCodes providers'))).
  { intros c. rewrite !elem_of_of_list. by rewrite (member_codes_Permutation _ _ Hperm). }
  assert (Hmax : getMaxLength (Multi_provider this) = getMaxLength (Multi_provider this')).
  { rewrite Hm, Hm'. by apply max_code_length_ext. }
  split_and!.
  - rewrite Hc, Hc'. apply NoDup_Permutation; [apply NoDup_of_list..|exact Hset].
  - exact Hmax.
  - intros msg msg' s out. rewrite !safeParse_Success, <- Hmax, Hc, Hc'.
    by rewrite (Hset (toUpperCase s)).
Qed.

(** X5. A composite used as a member of a composite is flattened: the
    composite of [Multi(ps)] followed by [qs] has the codes, in the same
    order, and the max length of the composite of [ps ++ qs]. *)
Theorem composite_flattening
  (ps qs : list CurrencyProvider) (inner : MultiCurrencyProvider) :
  new_MultiCurrencyProvider ps = Return inner →
  ∃ nested flat,
    new_MultiCurrencyProvider (Multi_provider inner :: qs) = Return nested ∧
    new_MultiCurrencyProvider (ps ++ qs) = Return flat ∧
    getValidCodes (Multi_provider nested) = getValidCodes (Multi_provider flat) ∧
    getMaxLength (Multi_provider nested) = getMaxLength (Multi_provider flat).
Proof.
  intros H.
  assert (Hps : ps ≠ []) by (intros ->; discriminate H).
  destruct (new_MultiCurrencyProvider_nonempty (Multi_provider inner :: qs) ltac:(done))
    as [nested Hn].
  destruct (new_MultiCurrencyProvider_nonempty (ps ++ qs)) as [flat Hf].
  { intros Happ. by apply app_eq_nil in Happ as [? _]. }
  exists nested, flat. split; [exact Hn|]. split; [exact Hf|].
  destruct (Multi_provider_codes _ _ H) as [Hc _].
  destruct (Multi_provider_codes _ _ Hn) as [Hcn Hmn].
  destruct (Multi_provider_codes _ _ Hf) as [Hcf Hmf].
  assert (Heq : JsSet.of_list (concat (map getValidCodes (Multi_provider inner :: qs))) =
                JsSet.of_list (concat (map getValidCodes (ps ++ qs)))).
  { cbn [map concat]. rewrite Hc, map_app, concat_app. apply of_list_app_of_list. }
  by rewrite Hcn, Hmn, Hcf, Hmf, Heq.
Qed.

(** X6. The order of the codes follows the order of the providers:
    adding providers at the end of the list only appends codes, so the
    codes of the first providers come first, in their own order. *)
Theorem composite_appends_codes
  (ps qs : list CurrencyProvider) (this : MultiCurrencyProvider) :
  new_MultiCurrencyProvider ps = Return this →
  ∃ this',
    new_MultiCurrencyProvider (ps ++ qs) = Return this' ∧
    getValidCodes (Multi_provider this) `prefix_of` getValidCodes (Multi_provider this').
Proof.
  intros H.
  assert (Hps : ps ≠ []) by (intros ->; discriminate H).
  destruct (new_MultiCurrencyProvider_nonempty (ps ++ qs)) as [this' H'].
  { intros Happ. by apply app_eq_nil in Happ as [? _]. }
  exists this'. split; [exact H'|].
  destruct (Multi_provider_codes _ _ H) as [-> _].
  destruct (Multi_provider_codes _ _ H') as [-> _].
  rewrite map_app, concat_app, of_list_app. apply foldl_add_prefix.
Qed.

End CompositeProperties.

(** ** The factory and the schema it builds *)

Section FactoryProperties.
Import NumberFacts JsSetFacts MaxLengthFacts ProviderFacts CompositeFacts LengthCheckFacts.

Variable toUpperCase : string → string.
Variable Number_toString : number → string.
Variable currencyCodes_codes : list string.

Local Abbreviation schema := (currencySchema toUpperCase Number_toString).
Local Abbreviation factory :=
  (createCurrencySchema toUpperCase Number_toString currencyCodes_codes).

Lemma factory_Return options p :
  finalProvider currencyCodes_codes options = Return p →
  factory options = Return (schema p (message options)).
Proof. intros H. unfold createCurrencySchema. by rewrite H. Qed.

(** X7. For a provider built by one of the three classes the length
    check never decides acceptance: an input is accepted exactly when it
    is non-empty and its upper-case form is a code of the provider, and
    the value returned is that upper-case form (the host's upper-casing
    never shortens a string). *)
Theorem builtin_acceptance (options : CurrencySchemaOptions) (p : CurrencyProvider) :
  (∀ x, (String.length x ≤ String.length (toUpperCase x))%nat) →
  finalProvider currencyCodes_codes options = Return p →
  constructed p →
  ∃ sch,
    factory options = Return sch ∧
    ∀ s out,
      Zod.safeParse sch s = Zod.Success out ↔
      s ≠ "" ∧ toUpperCase s ∈ getValidCodes p ∧ out = toUpperCase s.
Proof.
  intros Hlen Hp Hb. exists (schema p (message options)).
  split; [by apply factory_Return|].
  intros s out. rewrite safeParse_Success. split; [tauto|].
  intros (Hs & Hin & Hout). split_and!; try done.
  apply (leb_of_nat_mono _ _ (String.length (toUpperCase s))); [apply Hlen|].
  by apply (constructed_within_max_length p Hb).
Qed.

(** X8. The factory throws exactly when the provider option is the
    empty list, with the composite's message; an omitted provider and a
    single provider never make it throw. *)
Theorem factory_throws_on_empty_list (options : CurrencySchemaOptions) (m : string) :
  factory options = Throw m ↔
  provider options = Some (inr []) ∧ m = "At least one provider must be specified".
Proof.
  unfold createCurrencySchema, finalProvider.
  destruct (provider options) as [[p|[|p ps]]|]; cbn.
  - split; [discriminate|]. by intros [[=] _].
  - split; [by intros [= <-]|]. by intros [_ ->].
  - split; [discriminate|]. by intros [[=] _].
  - split; [discriminate|]. by intros [[=] _].
Qed.

(** X9. Normalisation is a fixed point: when a provider honours its
    bound, the value returned by a successful validation validates to
    itself (the host's upper-casing is idempotent and never shortens a
    string). *)
Theorem normalised_code_validates
  (p : CurrencyProvider) (msg : option string) (s out : string) :
  (∀ x, toUpperCase (toUpperCase x) = toUpperCase x) →
  (∀ x, (String.length x ≤ String.length (toUpperCase x))%nat) →
  honours_max_length p →
  Zod.safeParse (schema p msg) s = Zod.Success out →
  Zod.safeParse (schema p msg) out = Zod.Success out.
Proof.
  intros Hidem Hlen Hhon H. apply safeParse_Success in H as (Hs & Hle & Hin & ->).
  apply safeParse_Success. rewrite Hidem. split_and!; try done.
  - intros He. specialize (Hlen s). rewrite He in Hlen.
    destruct s; [done|cbn in Hlen; lia].
  - apply (leb_of_not_gtb _ (String.length s)); [exact Hle|by apply Hhon].
Qed.

(** X10. A validation never fails without a message: the outcome is
    either the upper-case form of the input, or a failure with at least
    one and at most three issues, each of them the emptiness message,
    the message naming the bound or the message of the membership
    check. *)
Theorem failure_has_issues (p : CurrencyProvider) (msg : option string) (s : string) :
  Zod.safeParse (schema p msg) s = Zod.Success (toUpperCase s) ∨
  ∃ first rest,
    Zod.safeParse (schema p msg) s = Zod.Failure (first :: rest) ∧
    (length rest ≤ 2)%nat ∧
    ∀ issue, issue ∈ first :: rest →
             issue ∈ [emptyMessage;
                      exceedMessage Number_toString (getMaxLength p);
                      or_default msg (defaultMessage p)].
Proof.
  rewrite safeParse_currencySchema.
  destruct (Number.leb _ _), (Number.leb _ _), (JsSet.has _ _); cbn [app];
    first
      [ by left
      | right; eexists _, _; (split; [reflexivity|]); (split; [cbn; lia|]);
        intros issue; rewrite !elem_of_cons, !elem_of_nil; tauto ].
Qed.

(** X11. A provider built by one of the three classes with no code at
    all (its max length is then -Infinity) rejects every input, also
    the inputs of length zero: the length check fails for each of
    them. *)
Theorem empty_provider_rejects_all
  (p : CurrencyProvider) (msg : option string) (s : string) :
  constructed p →
  getValidCodes p = [] →
  Zod.safeParse (schema p msg) s =
    Zod.Failure
      ((if String.eqb s "" then [emptyMessage] else []) ++
       [exceedMessage Number_toString NegInfinity; or_default msg (defaultMessage p)]).
Proof.
  intros Hb Hnil. rewrite safeParse_currencySchema.
  destruct (constructed_max_code_length p Hb) as [_ Hm].
  rewrite Hm, Hnil. change (max_code_length []) with NegInfinity.
  unfold code_length at 2. rewrite leb_NegInfinity_false.
  change (JsSet.has [] (toUpperCase s)) with false.
  destruct (String.eqb_spec s "") as [->|Hs].
  - reflexivity.
  - by rewrite (leb_1_code_length_true s Hs).
Qed.

(** X12. Wrapping a provider in a list recomputes its bound and so
    never rejects more: what the schema of a provider accepts, the
    schema of the one-element list accepts with the same value, and
    conversely when each code of the provider is within the provider's
    own bound (which is then not NaN). *)
Theorem wrapping_accepts_more
  (A : CurrencyProvider) (msg : option string) (s out : string) :
  (∀ x, (String.length x ≤ String.length (toUpperCase x))%nat) →
  ∃ direct wrapped,
    factory {| provider := Some (inl A); message := msg |} = Return direct ∧
    factory {| provider := Some (inr [A]); message := msg |} = Return wrapped ∧
    (Zod.safeParse direct s = Zod.Success out →
     Zod.safeParse wrapped s = Zod.Success out) ∧
    (within_max_length A →
     Zod.safeParse wrapped s = Zod.Success out →
     Zod.safeParse direct s = Zod.Success out).
Proof.
  intros Hlen.
  destruct (new_MultiCurrencyProvider_nonempty [A] ltac:(done)) as [this H].
  assert (Hb : constructed (Multi_provider this)) by by econstructor.
  destruct (Multi_provider_codes _ _ H) as [Hc _].
  cbn [map concat] in Hc. rewrite app_nil_r in Hc.
  exists (schema A msg), (schema (Multi_provider this) msg).
  split; [by apply factory_Return|].
  split; [apply factory_Return; unfold finalProvider; cbn [provider]; by rewrite H|].
  rewrite !safeParse_Success, Hc, elem_of_of_list. split.
  - intros (Hs & _ & Hin & Hout). split_and!; try done.
    apply (leb_of_nat_mono _ _ (String.length (toUpperCase s))); [apply Hlen|].
    apply (constructed_within_max_length _ Hb). rewrite Hc. by apply elem_of_of_list.
  - intros Hhon (Hs & _ & Hin & Hout). split_and!; try done.
    apply (leb_of_nat_mono _ _ (String.length (toUpperCase s))); [apply Hlen|].
    by apply Hhon.
Qed.

End FactoryProperties.

(** ** The analysis of the tables *)

Module AnalysisFacts.
Import NumberFacts JsSetFacts MaxLengthFacts Analysis.

Lemma keep_longer_spec longest current :
  keep_longer longest current =
  if bool_decide (String.length longest < String.length current)%nat
  then current else longest.
Proof. unfold keep_longer, code_length. by rewrite gtb_of_nat. Qed.

(** What the reduction returns from any initial value. *)
Lemma foldl_keep_longer codes initial :
  let r := foldl keep_longer initial codes in
  (∀ c, c ∈ codes → String.length c ≤ String.length r)%nat ∧
  ((r = initial ∧ ∀ c, c ∈ codes → (String.length c ≤ String.length initial)%nat) ∨
   (∃ pre post,
      codes = pre ++ r :: post ∧
      (String.length initial < String.length r)%nat ∧
      ∀ c, c ∈ pre → (String.length c < String.length r)%nat)).
Proof.
  revert initial. induction codes as [|x l IH]; intros initial; cbn [foldl].
  - split; [intros c Hc; inversion Hc|]. left. split; [done|]. intros c Hc. inversion Hc.
  - rewrite keep_longer_spec. case_bool_decide as Hx.
    + destruct (IH x) as [Hub [[Hr Hall]|(pre & post & Hl & Hlt & Hpre)]].
      * split.
        { intros c Hc. apply elem_of_cons in Hc as [->|Hc]; [by rewrite Hr|by apply Hub]. }
        right. exists [], l. rewrite Hr. split_and!; [done|done|].
        intros c Hc. inversion Hc.
      * split.
        { intros c Hc. apply elem_of_cons in Hc as [->|Hc]; [lia|by apply Hub]. }
        right. exists (x :: pre), post. split_and!; [by rewrite Hl at 1|lia|].
        intros c Hc. apply elem_of_cons in Hc as [->|Hc]; [lia|by apply Hpre].
    + destruct (IH initial) as [Hub [[Hr Hall]|(pre & post & Hl & Hlt & Hpre)]].
      * split.
        { intros c Hc. apply elem_of_cons in Hc as [->|Hc]; [rewrite Hr; lia|by apply Hub]. }
        left. split; [done|].
        intros c Hc. apply elem_of_cons in Hc as [->|Hc]; [lia|by apply Hall].
      * split.
        { intros c Hc. apply elem_of_cons in Hc as [->|Hc]; [lia|by apply Hub]. }
        right. exists (x :: pre), post. split_and!; [by rewrite Hl at 1|lia|].
        intros c Hc. apply elem_of_cons in Hc as [->|Hc]; [lia|by apply Hpre].
Qed.

(** The codes of a given length, in source order. *)
Lemma filter_snoc (P : string → Prop) `{∀ x, Decision (P x)} l x :
  filter P (l ++ [x]) = if decide (P x) then filter P l ++ [x] else filter P l.
Proof.
  rewrite filter_app. cbn. unfold filter at 2. cbn.
  destruct (decide (P x)); [done|by rewrite app_nil_r].
Qed.

Lemma distribution_lookup codes n :
  cryptoLengthDistribution codes !! n =
  match filter (λ c, String.length c = n) codes with
  | [] => None
  | group => Some (length group)
  end.
Proof.
  unfold cryptoLengthDistribution. induction codes as [|x l IH] using rev_ind.
  - done.
  - rewrite foldl_app. cbn [foldl]. unfold count_code at 1. rewrite filter_snoc.
    destruct (decide (String.length x = n)) as [<-|Hne].
    + rewrite lookup_insert_eq, IH.
      destruct (filter _ l) as [|c cs] eqn:Hf; cbn [or_zero app length]; [done|].
      rewrite length_app. cbn [length Nat.eqb]. f_equal; lia.
    + by rewrite lookup_insert_ne.
Qed.

Lemma byLength_lookup codes n :
  cryptoByLength codes !! n =
  match filter (λ c, String.length c = n) codes with
  | [] => None
  | group => Some group
  end.
Proof.
  unfold cryptoByLength. induction codes as [|x l IH] using rev_ind.
  - done.
  - rewrite foldl_app. cbn [foldl]. unfold group_code at 1. rewrite filter_snoc.
    destruct (decide (String.length x = n)) as [<-|Hne].
    + destruct (foldl group_code ∅ l !! String.length x) as [g|] eqn:Hg.
      * rewrite Hg, lookup_insert_eq.
        destruct (filter _ l) as [|c cs]; [discriminate IH|]. by injection IH as ->.
      * rewrite lookup_insert_eq, lookup_insert_eq.
        by destruct (filter _ l) as [|c cs]; [|discriminate IH].
    + assert (Hother : ∀ m : gmap nat (list string),
                match m !! String.length x with
                | Some codes => <[String.length x := codes ++ [x]]> m
                | None => m
                end !! n = m !! n).
      { intros m. destruct (m !! String.length x); [by rewrite lookup_insert_ne|done]. }
      rewrite Hother.
      destruct (foldl group_code ∅ l !! String.length x);
        [exact IH|by rewrite lookup_insert_ne].
Qed.

Lemma default_distribution codes n :
  default 0%nat (cryptoLengthDistribution codes !! n) =
  length (filter (λ c, String.length c = n) codes).
Proof.
  rewrite distribution_lookup. by destruct (filter _ codes).
Qed.

(** Sums over distinct lengths. *)
Lemma foldl_sum_ext (f g : nat → nat) ks a :
  (∀ k, f k = g k) →
  foldl (λ sum k, (sum + f k)%nat) a ks = foldl (λ sum k, (sum + g k)%nat) a ks.
Proof.
  intros Hfg. revert a. induction ks as [|k ks IH]; intros a; cbn [foldl]; [done|].
  by rewrite Hfg, IH.
Qed.

Lemma foldl_sum_cons (x : string) l ks a :
  NoDup ks →
  foldl (λ sum k, (sum + length (filter (λ c, String.length c = k) (x :: l)))%nat) a ks =
  (foldl (λ sum k, (sum + length (filter (λ c, String.length c = k) l))%nat) a ks +
   if bool_decide (String.length x ∈ ks) then 1 else 0)%nat.
Proof.
  intros Hnd. revert a. induction Hnd as [|k ks Hk Hnd IH]; intros a; cbn [foldl].
  - rewrite bool_decide_eq_false_2 by (intros H; inversion H). lia.
  - rewrite IH. rewrite filter_cons.
    destruct (decide (String.length x = k)) as [Hx|Hx].
    + subst k. rewrite bool_decide_eq_false_2 by done.
      rewrite bool_decide_eq_true_2 by left. cbn [length].
      assert (Hshift : ∀ (h : nat → nat) ks' b,
                 foldl (λ sum k, (sum + h k)%nat) (S b) ks' =
                 S (foldl (λ sum k, (sum + h k)%nat) b ks')).
      { intros h ks'. induction ks' as [|k' ks' IH']; intros b; cbn [foldl]; [done|].
        by rewrite <- IH'. }
      replace (a + S (length (filter (λ c, String.length c = String.length x) l)))%nat
        with (S (a + length (filter (λ c, String.length c = String.length x) l)))%nat by lia.
      rewrite Hshift. lia.
    + destruct (bool_decide (String.length x ∈ ks)) eqn:Hin.
      * rewrite bool_decide_eq_true_2; [done|]. right. by apply bool_decide_eq_true in Hin.
      * rewrite bool_decide_eq_false_2; [done|]. apply bool_decide_eq_false in Hin.
        intros H. apply elem_of_cons in H as [H|H]; done.
Qed.

Lemma foldl_sum_groups codes ks bound :
  NoDup ks →
  (∀ c, c ∈ codes → (String.length c ≤ bound)%nat ↔ String.length c ∈ ks) →
  foldl (λ sum k, (sum + length (filter (λ c, String.length c = k) codes))%nat) 0%nat ks =
  length (filter (λ c, (String.length c ≤ bound)%nat) codes).
Proof.
  intros Hnd. induction codes as [|x l IH]; intros Hks.
  - cbn. clear. induction ks as [|k ks IH]; [done|exact IH].
  - rewrite (foldl_sum_cons x l ks 0%nat Hnd), IH.
    2:{ intros c Hc. apply Hks. by right. }
    rewrite filter_cons. specialize (Hks x ltac:(left)).
    destruct (decide (String.length x ≤ bound)%nat) as [Hle|Hgt].
    + rewrite bool_decide_eq_true_2 by by apply Hks. cbn [length]. lia.
    + rewrite bool_decide_eq_false_2 by (intros H; by apply Hks in H). lia.
Qed.

Lemma elem_of_Object_keys {V} (o : gmap nat V) k : k ∈ Object_keys o ↔ is_Some (o !! k).
Proof.
  unfold Object_keys. rewrite merge_sort_Permutation, elem_of_elements. apply elem_of_dom.
Qed.

Lemma NoDup_Object_keys {V} (o : gmap nat V) : NoDup (Object_keys o).
Proof. unfold Object_keys. rewrite merge_sort_Permutation. apply NoDup_elements. Qed.

Lemma cumulativeCount_spec codes bound :
  cumulativeCount (cryptoLengthDistribution codes) bound =
  length (filter (λ c, (String.length c ≤ bound)%nat) codes).
Proof.
  unfold cumulativeCount.
  rewrite (foldl_sum_ext _ _ _ _ (default_distribution codes)).
  apply foldl_sum_groups.
  - apply NoDup_filter, NoDup_Object_keys.
  - intros c Hc. rewrite list_elem_of_filter, elem_of_Object_keys, distribution_lookup.
    split; [|tauto]. intros Hle. split; [done|].
    assert (Hin : c ∈ filter (λ c', String.length c' = String.length c) codes).
    { by apply list_elem_of_filter. }
    destruct (filter _ codes); [inversion Hin|by eexists].
Qed.

End AnalysisFacts.

Section AnalysisProperties.
Import NumberFacts JsSetFacts MaxLengthFacts ProviderFacts CryptoFacts FilterFacts
  CompositeFacts Analysis AnalysisFacts.

(** X13. The longest code found by the reduction: no code is longer;
    it is the first code of its length in the table; and it is the empty
    string exactly when the table holds nothing but empty codes (or
    nothing at all). *)
Theorem longest_code_is_first_longest (codes : list string) :
  (∀ c, c ∈ codes → (String.length c ≤ String.length (longest_code codes))%nat) ∧
  ((longest_code codes = "" ∧ ∀ c, c ∈ codes → c = "") ∨
   (∃ pre post,
      codes = pre ++ longest_code codes :: post ∧
      longest_code codes ≠ "" ∧
      ∀ c, c ∈ pre → (String.length c < String.length (longest_code codes))%nat)).
Proof.
  destruct (foldl_keep_longer codes "") as [Hub Hcase]. fold (longest_code codes) in *.
  split; [exact Hub|].
  destruct Hcase as [[Hr Hall]|(pre & post & Hl & Hlt & Hpre)].
  - left. split; [exact Hr|]. intros c Hc. specialize (Hall c Hc).
    destruct c; [done|cbn in Hall; lia].
  - right. exists pre, post. split_and!; [exact Hl| |exact Hpre].
    intros Hr. rewrite Hr in Hlt. cbn in Hlt. lia.
Qed.

(** X14. On a table that is not empty the length of the longest code
    reported by the analysis is the max length of the fiat provider built
    on that table.  (On the empty table the analysis reports the empty
    string, of length 0, where the provider's max length is -Infinity.) *)
Theorem longest_code_is_provider_bound (codes : list string) :
  codes ≠ [] →
  getMaxLength (Fiat_provider (new_FiatCurrencyProvider codes)) =
    code_length (longest_code codes).
Proof.
  intros Hne. cbn [Fiat_provider new_FiatCurrencyProvider getMaxLength fiat_maxLength].
  apply (is_max_length_unique (JsSet.of_list codes) codes);
    [apply elem_of_of_list|apply max_code_length_spec|].
  destruct (foldl_keep_longer codes "") as [Hub Hcase]. fold (longest_code codes) in *.
  split_and!; [|intros _|done].
  - intros c Hc. unfold code_length. rewrite leb_of_nat.
    apply bool_decide_eq_true. by apply Hub.
  - destruct Hcase as [[Hr Hall]|(pre & post & Hl & _ & _)].
    + destruct codes as [|c cs]; [done|]. exists c. split; [left|].
      assert (Hc := Hall c ltac:(left)). rewrite Hr.
      destruct c; [done|cbn in Hc; lia].
    + exists (longest_code codes). split; [|done].
      rewrite Hl at 2. apply elem_of_app. right. left.
Qed.

(** X15. The length distribution and the grouping by length agree with
    the table: a length is a key exactly when some symbol has it, its
    count is the number of symbols of that length (repetitions
    included) and its group lists those symbols in table order. *)
Theorem length_distribution_counts (cryptoSymbols : list string) (n : nat) :
  cryptoLengthDistribution cryptoSymbols !! n =
    match filter (λ c, String.length c = n) cryptoSymbols with
    | [] => None
    | group => Some (length group)
    end ∧
  cryptoByLength cryptoSymbols !! n =
    match filter (λ c, String.length c = n) cryptoSymbols with
    | [] => None
    | group => Some group
    end ∧
  (n ∈ Object_keys (cryptoLengthDistribution cryptoSymbols) ↔
   ∃ c, c ∈ cryptoSymbols ∧ String.length c = n).
Proof.
  split_and!; [apply distribution_lookup|apply byLength_lookup|].
  rewrite elem_of_Object_keys, distribution_lookup. split.
  - destruct (filter _ cryptoSymbols) as [|c cs] eqn:Hf; [by intros [? ?]|].
    intros _. exists c.
    assert (Hc : c ∈ filter (λ c, String.length c = n) cryptoSymbols)
      by (rewrite Hf; left).
    apply list_elem_of_filter in Hc. tauto.
  - intros (c & Hc & Hn).
    assert (Hin : c ∈ filter (λ c, String.length c = n) cryptoSymbols)
      by by apply list_elem_of_filter.
    destruct (filter _ cryptoSymbols); [inversion Hin|by eexists].
Qed.

(** X16. The cumulative count of a threshold is the number of symbols
    that are not longer than it; it never decreases with the threshold
    and reaches the size of the table at the length of the longest
    symbol. *)
Theorem cumulative_count_counts (cryptoSymbols : list string) (bound : nat) :
  cumulativeCount (cryptoLengthDistribution cryptoSymbols) bound =
    length (filter (λ c, (String.length c ≤ bound)%nat) cryptoSymbols) ∧
  (∀ bound', (bound ≤ bound')%nat →
     (cumulativeCount (cryptoLengthDistribution cryptoSymbols) bound ≤
      cumulativeCount (cryptoLengthDistribution cryptoSymbols) bound')%nat) ∧
  ((String.length (longest_code cryptoSymbols) ≤ bound)%nat →
   cumulativeCount (cryptoLengthDistribution cryptoSymbols) bound = length cryptoSymbols).
Proof.
  split_and!; [apply cumulativeCount_spec| |].
  - intros bound' Hle. rewrite !cumulativeCount_spec.
    induction cryptoSymbols as [|x l IH]; [done|]. rewrite !filter_cons.
    destruct (decide (String.length x ≤ bound)%nat), (decide (String.length x ≤ bound')%nat);
      cbn [length]; lia.
  - intros Hlong. rewrite cumulativeCount_spec.
    destruct (foldl_keep_longer cryptoSymbols "") as [Hub _].
    fold (longest_code cryptoSymbols) in Hub.
    assert (Hall : ∀ c, c ∈ cryptoSymbols → (String.length c ≤ bound)%nat).
    { intros c Hc. specialize (Hub c Hc). lia. }
    clear Hub Hlong. induction cryptoSymbols as [|x l IH]; [done|].
    rewrite filter_cons. destruct (decide (String.length x ≤ bound)%nat) as [Hx|Hx].
    + cbn [length]. f_equal. apply IH. intros c Hc. apply Hall. by right.
    + destruct Hx. apply Hall. left.
Qed.

(** X17. The symbols excluded at a threshold are the symbols longer
    than it, and with the symbols counted by the cumulative count they
    make up the table.  For a positive threshold they are exactly the
    symbols that a CryptocurrencyProvider with that max length leaves
    out. *)
Theorem excluded_complements_kept (cryptoSymbols : list string) (threshold : nat) :
  (∀ c, c ∈ excluded cryptoSymbols threshold ↔
        c ∈ cryptoSymbols ∧ (threshold < String.length c)%nat) ∧
  (length (excluded cryptoSymbols threshold) +
   cumulativeCount (cryptoLengthDistribution cryptoSymbols) threshold =
   length cryptoSymbols)%nat ∧
  ((0 < threshold)%nat →
   ∃ this,
     new_CryptocurrencyProvider cryptoSymbols (only_maxLength (Number.of_nat threshold))
       = Return this ∧
     ∀ c, c ∈ excluded cryptoSymbols threshold ↔
          c ∈ cryptoSymbols ∧ c ∉ getValidCodes (Crypto_provider this)).
Proof.
  assert (Hex : ∀ c, c ∈ excluded cryptoSymbols threshold ↔
                     c ∈ cryptoSymbols ∧ (threshold < String.length c)%nat).
  { intros c. unfold excluded, code_length.
    rewrite list_elem_of_filter, gtb_of_nat, bool_decide_eq_true. tauto. }
  split_and!; [exact Hex| |].
  - rewrite cumulativeCount_spec. unfold excluded, code_length. clear Hex.
    induction cryptoSymbols as [|x l IH]; [done|]. rewrite !filter_cons.
    rewrite gtb_of_nat.
    destruct (decide (bool_decide (threshold < String.length x)%nat = true)) as [Hx|Hx];
      [apply bool_decide_eq_true in Hx|apply not_true_is_false, bool_decide_eq_false in Hx];
      destruct (decide (String.length x ≤ threshold)%nat); cbn [length]; lia.
  - intros Hpos.
    assert (Hl : Number.compare (Number.of_nat threshold) (Number.of_Z (Z.of_nat threshold))
                 = Some Eq).
    { unfold Number.of_nat. by rewrite compare_of_Z, Z.compare_refl. }
    assert (Hcheck : Number.leb (Number.of_nat threshold) (Number.of_Z 0)
                     || negb (isInteger (Number.of_nat threshold)) = false).
    { apply maxLength_check. exists (Z.of_nat threshold). split; [lia|exact Hl]. }
    rewrite (new_CryptocurrencyProvider_maxLength _ _ Hcheck). cbn zeta.
    eexists. split; [reflexivity|]. intros c. rewrite Hex.
    cbn [Crypto_provider getValidCodes crypto_validCodes].
    rewrite !elem_of_of_list, list_elem_of_filter, elem_of_of_list.
    rewrite (leb_code_length_integer _ _ c Hl). split.
    + intros [Hc Hlt]. split; [done|]. intros [Hle _]. lia.
    + intros [Hc Hnot]. split; [done|].
      destruct (decide (threshold < String.length c)%nat); [done|].
      destruct Hnot. split; [lia|done].
Qed.

(** X18. The conflicts found by the analysis are the symbols that are
    also fiat codes, and they are what the composite of the fiat and the
    cryptocurrency providers counts once: the size of its set and the
    number of distinct conflicts add up to the sizes of the two sets. *)
Theorem conflicts_counted_once (fiatCodes cryptoSymbols : list string) :
  (∀ c, c ∈ conflicts fiatCodes cryptoSymbols ↔ c ∈ cryptoSymbols ∧ c ∈ fiatCodes) ∧
  ∃ crypto this,
    cryptoProvider cryptoSymbols = Return crypto ∧
    new_MultiCurrencyProvider [fiatProvider fiatCodes; crypto] = Return this ∧
    (JsSet.size (getValidCodes (Multi_provider this)) +
     JsSet.size (JsSet.of_list (conflicts fiatCodes cryptoSymbols)) =
     JsSet.size (getValidCodes (fiatProvider fiatCodes)) +
     JsSet.size (getValidCodes crypto))%nat.
Proof.
  assert (Hin : ∀ c, c ∈ conflicts fiatCodes cryptoSymbols ↔
                     c ∈ cryptoSymbols ∧ c ∈ fiatCodes).
  { intros c. unfold conflicts. rewrite list_elem_of_filter, has_true, elem_of_of_list.
    tauto. }
  split; [exact Hin|].
  set (crypto := Crypto_provider
                   {| crypto_validCodes := JsSet.of_list cryptoSymbols;
                      crypto_maxLength := max_code_length (JsSet.of_list cryptoSymbols) |}).
  destruct (new_MultiCurrencyProvider_nonempty [fiatProvider fiatCodes; crypto]
              ltac:(done)) as [this H].
  exists crypto, this. split; [reflexivity|]. split; [exact H|].
  destruct (Multi_provider_codes _ _ H) as [Hc _]. rewrite Hc.
  unfold crypto.
  cbn [map concat fiatProvider Fiat_provider Crypto_provider new_FiatCurrencyProvider
       getValidCodes fiat_validCodes crypto_validCodes].
  rewrite app_nil_r, !of_list_idemp. unfold JsSet.size.
  rewrite <- !(size_list_to_set (C:=gset string)) by apply NoDup_of_list.
  rewrite !list_to_set_of_list, list_to_set_app_L, !list_to_set_of_list.
  set (A := list_to_set fiatCodes : gset string).
  set (B := list_to_set cryptoSymbols : gset string).
  assert (HAB : (list_to_set (conflicts fiatCodes cryptoSymbols) : gset string) = B ∩ A).
  { apply set_eq. intros c. rewrite elem_of_list_to_set, Hin, elem_of_intersection.
    unfold A, B. by rewrite !elem_of_list_to_set. }
  rewrite HAB, size_union_alt, size_difference_alt.
  assert (size (B ∩ A) ≤ size B)%nat by apply subseteq_size, intersection_subseteq_l.
  lia.
Qed.

End AnalysisProperties.

(** ** The providers of the examples *)

Section ExampleProviders.
Import NumberFacts JsSetFacts MaxLengthFacts ProviderFacts LengthCheckFacts.

Variable toUpperCase : string → string.
Variable Number_toString : number → string.

Local Abbreviation schema := (currencySchema toUpperCase Number_toString).

Lemma honours_max_code_length codes :
  ∀ c, c ∈ codes → Number.gtb (code_length c) (max_code_length codes) = false.
Proof.
  intros c Hc. destruct (max_code_length_spec codes) as (Hub & Hatt & _).
  destruct (Hatt ltac:(by intros E; rewrite E in Hc; inversion Hc)) as (c' & Hc' & Hmax).
  specialize (Hub c Hc). rewrite Hmax in *. unfold code_length in *.
  rewrite leb_of_nat in Hub. rewrite gtb_of_nat.
  apply bool_decide_eq_true in Hub. apply bool_decide_eq_false. lia.
Qed.

(** X19. A DynamicCurrencyProvider computes its bound from the codes it
    was given, repeated or not, so it honours it: its schema accepts an
    input exactly when the input is non-empty and its upper-case form is
    one of the codes (the host's upper-casing never shortens a
    string). *)
Theorem dynamic_provider_acceptance
  (this : DynamicCurrencyProvider) (msg : option string) (s out : string) :
  (∀ x, (String.length x ≤ String.length (toUpperCase x))%nat) →
  is_max_length (getValidCodes (Dynamic_provider this))
    (getMaxLength (Dynamic_provider this)) ∧
  (Zod.safeParse (schema (Dynamic_provider this) msg) s = Zod.Success out ↔
   s ≠ "" ∧ toUpperCase s ∈ dyn_currencies this ∧ out = toUpperCase s).
Proof.
  intros Hlen.
  assert (Hm : getMaxLength (Dynamic_provider this) =
               max_code_length (getValidCodes (Dynamic_provider this))).
  { cbn [Dynamic_provider getMaxLength getValidCodes].
    change (Math_max (map code_length (dyn_currencies this)))
      with (max_code_length (dyn_currencies this)).
    apply max_code_length_ext. intros c. by rewrite elem_of_of_list. }
  split; [rewrite Hm; apply max_code_length_spec|].
  rewrite safeParse_Success, Hm.
  cbn [Dynamic_provider getValidCodes]. rewrite elem_of_of_list.
  split; [tauto|]. intros (Hs & Hin & Hout). split_and!; try done.
  apply (leb_of_nat_mono _ _ (String.length (toUpperCase s))); [apply Hlen|].
  apply max_code_length_spec. by apply elem_of_of_list.
Qed.

(** X20. A ValidatedCurrencyProvider honours its bound, and its bound is
    0, not -Infinity, when the rule leaves no code.  With the rule on,
    each of its codes starts with a capital letter; with the rule off its
    codes are the distinct currencies it was given. *)
Theorem validated_provider_bound (this : ValidatedCurrencyProvider) :
  honours_max_length (Validated_provider this) ∧
  (getValidCodes (Validated_provider this) = [] →
   getMaxLength (Validated_provider this) = Number.of_Z 0) ∧
  (getValidCodes (Validated_provider this) ≠ [] →
   is_max_length (getValidCodes (Validated_provider this))
     (getMaxLength (Validated_provider this))) ∧
  (∀ c, c ∈ getValidCodes (Validated_provider this) →
        c ∈ val_currencies this ∧
        (val_startsWithLetter this = true → starts_with_capital c = true ∧ c ≠ "")) ∧
  (val_startsWithLetter this = false →
   getValidCodes (Validated_provider this) = JsSet.of_list (val_currencies this)).
Proof.
  cbn [Validated_provider getValidCodes getMaxLength]. unfold Validated_getMaxLength.
  unfold JsSet.to_array. fold (max_code_length (Validated_getValidCodes this)).
  split_and!.
  - intros c Hc. cbn [Validated_provider getValidCodes getMaxLength] in *.
    unfold Validated_getMaxLength, JsSet.to_array.
    fold (max_code_length (Validated_getValidCodes this)).
    destruct (Validated_getValidCodes this) as [|c0 cs] eqn:Hcodes; [inversion Hc|].
    cbn [length Nat.ltb Nat.leb]. by apply honours_max_code_length.
  - by intros ->.
  - intros Hne. destruct (Validated_getValidCodes this) as [|c0 cs] eqn:Hcodes; [done|].
    cbn [length Nat.ltb Nat.leb]. apply max_code_length_spec.
  - intros c Hc. unfold Validated_getValidCodes in Hc.
    apply elem_of_of_list, list_elem_of_filter in Hc as [Hrule Hc]. split; [exact Hc|].
    intros Hon. rewrite Hon in Hrule. split; [exact Hrule|]. by intros ->.
  - intros Hoff. unfold Validated_getValidCodes. rewrite Hoff. f_equal.
    induction (val_currencies this) as [|x l IH]; [done|].
    rewrite filter_cons. destruct (decide (true = true)); [by rewrite IH|done].
Qed.

End ExampleProviders.

(** * The percentage 1 *)

(** The double-precision product of an integer below 2^53 and a number
    that equals 1 is exact: rounding shifts the mantissa only by bits
    that are zero. *)
Module ExactProductFacts.
Import NumberFacts RoundingFacts.

Lemma shr_1_even a :
  0 ≤ a →
  shr_1 {| shr_m := 2 * a; shr_r := false; shr_s := false |} =
  {| shr_m := a; shr_r := false; shr_s := false |}.
Proof. intros Ha. destruct a as [|p|p]; [done|done|lia]. Qed.

Lemma iter_pos_shr_1_exact p a :
  0 ≤ a →
  SpecFloat.iter_pos shr_1 p {| shr_m := a * 2 ^ Z.pos p; shr_r := false; shr_s := false |} =
  {| shr_m := a; shr_r := false; shr_s := false |}.
Proof.
  revert a. induction p as [p IH|p IH|]; intros a Ha; cbn [SpecFloat.iter_pos].
  - replace (a * 2 ^ Z.pos p~1) with (2 * ((a * 2 ^ Z.pos p) * 2 ^ Z.pos p)).
    2:{ replace (Z.pos p~1) with (Z.pos p + Z.pos p + 1) by lia.
        rewrite !Z.pow_add_r, Z.pow_1_r by lia. ring. }
    assert (0 ≤ 2 ^ Z.pos p) by (apply Z.pow_nonneg; lia).
    rewrite shr_1_even by nia. rewrite IH by nia. by apply IH.
  - replace (a * 2 ^ Z.pos p~0) with ((a * 2 ^ Z.pos p) * 2 ^ Z.pos p).
    2:{ replace (Z.pos p~0) with (Z.pos p + Z.pos p) by lia.
        rewrite !Z.pow_add_r by lia. ring. }
    assert (0 ≤ 2 ^ Z.pos p) by (apply Z.pow_nonneg; lia).
    rewrite IH by nia. by apply IH.
  - replace (a * 2 ^ 1) with (2 * a) by lia. by apply shr_1_even.
Qed.

Lemma shr_exact a e n :
  0 ≤ a → 0 ≤ n →
  shr {| shr_m := a * 2 ^ n; shr_r := false; shr_s := false |} e n =
  ({| shr_m := a; shr_r := false; shr_s := false |}, e + n).
Proof.
  intros Ha Hn. destruct n as [|p|p]; cbn [shr]; [|by rewrite iter_pos_shr_1_exact|lia].
  by rewrite Z.pow_0_r, Z.mul_1_r, Z.add_0_r.
Qed.

(** Rounding a mantissa that denotes an integer below 2^53 is exact. *)
Lemma binary_round_aux_exact s mz ez q :
  0 < q → Z.log2 q < 53 → ez ≤ Z.log2 q + 1 - 53 → mz = q * 2 ^ (- ez) →
  binary_round_aux prec emax s mz ez loc_Exact =
  S754_finite s (Z.to_pos (q * 2 ^ (52 - Z.log2 q))) (Z.log2 q - 52).
Proof.
  intros Hq Hlog Hez ->. set (F := Z.log2 q - 52).
  assert (HF : F ≤ 0) by (unfold F; lia).
  assert (Hlog0 := Z.log2_nonneg q).
  assert (Hdig : ∀ j, 0 ≤ j → Zdigits2 (q * 2 ^ j) + - j = Z.log2 q + 1).
  { intros j Hj. rewrite Zdigits2_log2.
    - rewrite Z.log2_mul_pow2 by lia. lia.
    - apply Z.mul_pos_pos; [lia|apply Z.pow_pos_nonneg; lia]. }
  assert (Hfexp : fexp prec emax (Z.log2 q + 1) = F).
  { unfold fexp, prec, emin, emax, F. lia. }
  unfold binary_round_aux, shr_fexp.
  replace (Zdigits2 (q * 2 ^ (- ez)) + ez) with (Z.log2 q + 1)
    by (rewrite <- (Hdig (- ez)) by lia; lia).
  rewrite Hfexp. cbn [shr_record_of_loc].
  replace (q * 2 ^ (- ez)) with ((q * 2 ^ (- F)) * 2 ^ (F - ez)).
  2:{ rewrite <- Z.mul_assoc, <- Z.pow_add_r by lia. do 2 f_equal. lia. }
  assert (Hpos : 0 < q * 2 ^ (- F)).
  { apply Z.mul_pos_pos; [lia|apply Z.pow_pos_nonneg; lia]. }
  rewrite shr_exact by lia. cbn [loc_of_shr_record shr_m round_nearest_even].
  replace (ez + (F - ez)) with F by lia.
  replace (Zdigits2 (q * 2 ^ (- F)) + F) with (Z.log2 q + 1)
    by (rewrite <- (Hdig (- F)) by lia; lia).
  rewrite Hfexp, Z.sub_diag. cbn [shr shr_m].
  replace (52 - Z.log2 q) with (- F) by (unfold F; lia).
  destruct (q * 2 ^ (- F)) as [|m|m] eqn:Hm; [lia| |lia].
  destruct (Z.leb_spec F (emax - prec)); [done|]. unfold emax, prec in *. lia.
Qed.

Lemma binary_round_exact s M E q :
  0 < q → Z.log2 q < 53 → E ≤ 0 → Z.pos M = q * 2 ^ (- E) →
  binary_round prec emax s M E =
  S754_finite s (Z.to_pos (q * 2 ^ (52 - Z.log2 q))) (Z.log2 q - 52).
Proof.
  intros Hq Hlog HE HM. unfold binary_round, shl_align.
  assert (Hlog0 := Z.log2_nonneg q).
  assert (HlogM : Z.log2 (Z.pos M) = - E + Z.log2 q).
  { rewrite HM. apply Z.log2_mul_pow2; lia. }
  assert (Hfexp : fexp prec emax (Z.pos (digits2_pos M) + E) = Z.log2 q - 52).
  { rewrite digits2_pos_log2, HlogM. unfold fexp, prec, emin, emax. lia. }
  rewrite Hfexp.
  destruct (Z.log2 q - 52 - E) as [|k|k] eqn:Hk.
  - apply binary_round_aux_exact; [done|done|lia|done].
  - apply binary_round_aux_exact; [done|done|lia|done].
  - apply binary_round_aux_exact; [done|done|lia|].
    rewrite iter_xO_pow2, HM, <- Z.mul_assoc, <- Z.pow_add_r by lia.
    do 2 f_equal. lia.
Qed.

Lemma floor_exact q :
  0 < q → Z.log2 q < 53 →
  floor_Z (S754_finite false (Z.to_pos (q * 2 ^ (52 - Z.log2 q))) (Z.log2 q - 52)) = Some q.
Proof.
  intros Hq Hlog. assert (Hlog0 := Z.log2_nonneg q).
  cbn [floor_Z]. unfold signed. cbn [cond_Zopp]. f_equal.
  assert (Hpos : 0 < q * 2 ^ (52 - Z.log2 q)).
  { apply Z.mul_pos_pos; [lia|apply Z.pow_pos_nonneg; lia]. }
  rewrite Z2Pos.id by lia.
  rewrite Z.shiftl_div_pow2 by lia.
  replace (- (Z.log2 q - 52)) with (52 - Z.log2 q) by lia.
  apply Z.div_mul. apply Z.pow_nonzero; lia.
Qed.

(** A number that equals 1 has a power of two for mantissa. *)
Lemma equals_one P :
  Number.compare P (Number.of_Z 1) = Some Eq →
  ∃ m e, P = S754_finite false m e ∧ e ≤ 0 ∧ Z.pos m = 2 ^ (- e).
Proof.
  intros H. destruct (parts P) as [[z e]|] eqn:Hparts.
  2:{ destruct P as [?|[]| |]; try discriminate Hparts; discriminate H. }
  rewrite (compare_finite_of_Z P 1 (z, e) Hparts) in H.
  destruct P as [s|[]| |s m e']; try discriminate Hparts.
  - injection Hparts as <- <-. discriminate H.
  - injection Hparts as <- <-. rename e' into e.
    injection H as H. unfold compare_parts in H. cbn [fst snd] in H.
    apply Z.compare_eq_iff in H.
    assert (Hp1 : 0 < 2 ^ (e - e `min` 0)) by (apply Z.pow_pos_nonneg; lia).
    assert (Hp2 : 0 < 2 ^ (0 - e `min` 0)) by (apply Z.pow_pos_nonneg; lia).
    destruct s; unfold signed in H; cbn [cond_Zopp] in H; [nia|].
    exists m, e. split; [done|].
    destruct (Z.le_gt_cases e 0) as [He|He].
    + split; [done|]. rewrite Z.min_l in H by lia.
      replace (e - e) with 0 in H by lia. replace (0 - e) with (- e) in H by lia.
      rewrite Z.pow_0_r in H. lia.
    + exfalso. rewrite Z.min_r in H by lia.
      replace (0 - 0) with 0 in H by lia. rewrite Z.pow_0_r, Z.sub_0_r in H.
      assert (2 ^ 1 ≤ 2 ^ e) by (apply Z.pow_le_mono_r; lia). nia.
Qed.

(** The product of a length below 2^53 and a number that equals 1 is
    the length. *)
Lemma mul_one_exact n P :
  Z.of_nat n < 2 ^ 53 →
  Number.compare P (Number.of_Z 1) = Some Eq →
  floor_Z (Number.mul (Number.of_nat n) P) = Some (Z.of_nat n).
Proof.
  intros Hn HP. destruct (equals_one P HP) as (m & e & -> & He & Hm).
  unfold Number.of_nat. destruct (Z.of_nat n) as [|q|q] eqn:Hq; [done| |lia].
  cbn [Number.of_Z].
  replace (Number.mul (S754_finite false q 0) (S754_finite false m e))
    with (binary_round prec emax false (q * m) (0 + e)) by reflexivity.
  assert (Hlog : Z.log2 (Z.pos q) < 53) by (apply Z.log2_lt_pow2; lia).
  rewrite (binary_round_exact false (q * m) (0 + e) (Z.pos q)); [|lia|done|lia|].
  - by apply floor_exact.
  - by rewrite Pos2Z.inj_mul, Hm.
Qed.

End ExactProductFacts.

Section WholePercentage.
Import NumberFacts JsSetFacts RoundingFacts SliceFacts CryptoFacts FilterFacts
  ExactProductFacts.

(** X21. The percentage 1, the upper end of the accepted range, removes
    nothing: a CryptocurrencyProvider given only a percentage that
    equals 1 is the provider built with no option at all, with every
    distinct code of the source list (for a list of fewer than 2^53
    distinct codes, where the product with 1 is exact). *)
Theorem percentage_one_keeps_all (cryptoSymbols : list string) (P : number) :
  Number.compare P (Number.of_Z 1) = Some Eq →
  Z.of_nat (length (JsSet.of_list cryptoSymbols)) < 2 ^ 53 →
  ∃ this,
    new_CryptocurrencyProvider cryptoSymbols (only_percentage P) = Return this ∧
    new_CryptocurrencyProvider cryptoSymbols no_options = Return this ∧
    getValidCodes (Crypto_provider this) = JsSet.of_list cryptoSymbols.
Proof.
  intros HP Hlen.
  assert (H0 : Number.ltb (Number.of_Z 0) P = true).
  { unfold Number.ltb. by rewrite (compare_of_Z_integer P 1 0 HP). }
  assert (H1 : Number.leb P (Number.of_Z 1) = true).
  { unfold Number.leb. by rewrite HP. }
  destruct (percentage_in_range P H0 H1) as [_ Hcheck].
  rewrite (new_CryptocurrencyProvider_percentage _ _ Hcheck). cbn zeta.
  rewrite (slice0_floor _ _ _ (mul_one_exact _ P Hlen HP)) by lia.
  rewrite Nat2Z.id, firstn_all, of_list_idemp.
  eexists. split; [reflexivity|]. split; [reflexivity|].
  cbn [Crypto_provider getValidCodes crypto_validCodes]. apply of_list_idemp.
Qed.

End WholePercentage.

(** * Instances of the further properties *)

Section FurtherInstances.
Import JsSetFacts HostFacts Analysis.

Local Abbreviation schema := (currencySchema ascii_toUpperCase integral_toString).
Local Abbreviation factory := (createCurrencySchema ascii_toUpperCase integral_toString).

Lemma maxLength_keeps_short_codes_witness :
  0 < 3 ∧
  Number.compare (Number.of_Z 3) (Number.of_Z 3) = Some Eq ∧
  ∃ this,
    new_CryptocurrencyProvider ["BTC"; "DOGE"; "ETH"; "BTC"]
      (only_maxLength (Number.of_Z 3)) = Return this ∧
    getValidCodes (Crypto_provider this) = ["BTC"; "ETH"].
Proof.
  split; [lia|]. split; [reflexivity|].
  destruct (maxLength_keeps_short_codes ["BTC"; "DOGE"; "ETH"; "BTC"] (Number.of_Z 3) 3
              ltac:(lia) eq_refl) as (this & Hnew & Hcodes & _).
  exists this. split; [exact Hnew|]. rewrite Hcodes. reflexivity.
Defined.

Lemma filters_only_remove_witness :
  ∃ this,
    new_CryptocurrencyProvider sampleCrypto (only_percentage one_half) = Return this ∧
    getValidCodes (Crypto_provider this) `sublist_of` JsSet.of_list sampleCrypto ∧
    NoDup (getValidCodes (Crypto_provider this)) ∧
    (∀ code, code ∈ getValidCodes (Crypto_provider this) → code ∈ sampleCrypto).
Proof.
  eexists. split; [reflexivity|].
  apply (filters_only_remove sampleCrypto (only_percentage one_half)). reflexivity.
Defined.

Lemma composite_codes_of_members_witness :
  ∃ this,
    new_MultiCurrencyProvider [fiatProvider sampleFiat; shortBoundProvider] = Return this ∧
    (∀ code, code ∈ getValidCodes (Multi_provider this) ↔
             ∃ p, p ∈ [fiatProvider sampleFiat; shortBoundProvider] ∧
                  code ∈ getValidCodes p) ∧
    NoDup (getValidCodes (Multi_provider this)) ∧
    (∀ p code, p ∈ [fiatProvider sampleFiat; shortBoundProvider] →
               code ∈ getValidCodes p →
               Number.gtb (code_length code) (getMaxLength (Multi_provider this)) = false).
Proof.
  eexists. split; [reflexivity|].
  apply (composite_codes_of_members [fiatProvider sampleFiat; shortBoundProvider]).
  reflexivity.
Defined.

Lemma composite_permutation_witness :
  [fiatProvider sampleFiat; shortBoundProvider] ≡ₚ
    [shortBoundProvider; fiatProvider sampleFiat] ∧
  ∃ this this',
    new_MultiCurrencyProvider [fiatProvider sampleFiat; shortBoundProvider] = Return this ∧
    new_MultiCurrencyProvider [shortBoundProvider; fiatProvider sampleFiat] = Return this' ∧
    getValidCodes (Multi_provider this) ≡ₚ getValidCodes (Multi_provider this') ∧
    getMaxLength (Multi_provider this) = getMaxLength (Multi_provider this') ∧
    ∀ msg msg' s out,
      Zod.safeParse (schema (Multi_provider this) msg) s = Zod.Success out ↔
      Zod.safeParse (schema (Multi_provider this') msg') s = Zod.Success out.
Proof.
  split; [apply perm_swap|].
  eexists.
  destruct (composite_permutation ascii_toUpperCase integral_toString
              [fiatProvider sampleFiat; shortBoundProvider]
              [shortBoundProvider; fiatProvider sampleFiat] _
              (perm_swap _ _ _) eq_refl) as (this' & H).
  exists this'. split; [reflexivity|exact H].
Defined.

Lemma composite_flattening_witness :
  ∃ inner nested flat,
    new_MultiCurrencyProvider [fiatProvider sampleFiat] = Return inner ∧
    new_MultiCurrencyProvider [Multi_provider inner; shortBoundProvider] = Return nested ∧
    new_MultiCurrencyProvider ([fiatProvider sampleFiat] ++ [shortBoundProvider])
      = Return flat ∧
    getValidCodes (Multi_provider nested) = getValidCodes (Multi_provider flat) ∧
    getMaxLength (Multi_provider nested) = getMaxLength (Multi_provider flat).
Proof.
  eexists.
  destruct (composite_flattening [fiatProvider sampleFiat] [shortBoundProvider] _ eq_refl)
    as (nested & flat & H).
  exists nested, flat. split; [reflexivity|exact H].
Defined.

Lemma composite_appends_codes_witness :
  ∃ this this',
    new_MultiCurrencyProvider [fiatProvider sampleFiat] = Return this ∧
    new_MultiCurrencyProvider ([fiatProvider sampleFiat] ++ [shortBoundProvider])
      = Return this' ∧
    getValidCodes (Multi_provider this) `prefix_of` getValidCodes (Multi_provider this').
Proof.
  eexists.
  destruct (composite_appends_codes [fiatProvider sampleFiat] [shortBoundProvider] _ eq_refl)
    as (this' & H).
  exists this'. split; [reflexivity|exact H].
Defined.

Lemma builtin_acceptance_witness :
  (∀ x, (String.length x ≤ String.length (ascii_toUpperCase x))%nat) ∧
  finalProvider sampleFiat {| provider := None; message := None |} =
    Return (fiatProvider sampleFiat) ∧
  constructed (fiatProvider sampleFiat) ∧
  ∃ sch,
    factory sampleFiat {| provider := None; message := None |} = Return sch ∧
    ∀ s out,
      Zod.safeParse sch s = Zod.Success out ↔
      s ≠ "" ∧ ascii_toUpperCase s ∈ getValidCodes (fiatProvider sampleFiat) ∧
      out = ascii_toUpperCase s.
Proof.
  assert (Hc : constructed (fiatProvider sampleFiat)) by constructor.
  split; [exact ascii_toUpperCase_length_le|]. split; [reflexivity|]. split; [exact Hc|].
  exact (builtin_acceptance ascii_toUpperCase integral_toString sampleFiat
           {| provider := None; message := None |} (fiatProvider sampleFiat)
           ascii_toUpperCase_length_le eq_refl Hc).
Defined.

Lemma normalised_code_validates_witness :
  (∀ x, ascii_toUpperCase (ascii_toUpperCase x) = ascii_toUpperCase x) ∧
  (∀ x, (String.length x ≤ String.length (ascii_toUpperCase x))%nat) ∧
  honours_max_length (fiatProvider sampleFiat) ∧
  Zod.safeParse (schema (fiatProvider sampleFiat) None) "usd" = Zod.Success "USD" ∧
  Zod.safeParse (schema (fiatProvider sampleFiat) None) "USD" = Zod.Success "USD".
Proof.
  assert (Hh : honours_max_length (fiatProvider sampleFiat)).
  { apply constructed_honours_max_length. constructor. }
  split; [exact ascii_toUpperCase_idemp|]. split; [exact ascii_toUpperCase_length_le|].
  split; [exact Hh|]. split; [reflexivity|].
  exact (normalised_code_validates ascii_toUpperCase integral_toString
           (fiatProvider sampleFiat) None "usd" "USD"
           ascii_toUpperCase_idemp ascii_toUpperCase_length_le Hh eq_refl).
Defined.

Lemma empty_provider_rejects_all_witness :
  constructed (fiatProvider []) ∧
  getValidCodes (fiatProvider []) = [] ∧
  Zod.safeParse (schema (fiatProvider []) None) "USD" =
    Zod.Failure
      ((if String.eqb "USD" "" then [emptyMessage] else []) ++
       [exceedMessage integral_toString NegInfinity;
        or_default None (defaultMessage (fiatProvider []))]).
Proof.
  assert (Hc : constructed (fiatProvider [])) by constructor.
  split; [exact Hc|]. split; [reflexivity|].
  exact (empty_provider_rejects_all ascii_toUpperCase integral_toString
           (fiatProvider []) None "USD" Hc eq_refl).
Defined.

Lemma wrapping_accepts_more_witness :
  (∀ x, (String.length x ≤ String.length (ascii_toUpperCase x))%nat) ∧
  within_max_length customProvider ∧
  ∃ direct wrapped,
    factory sampleFiat {| provider := Some (inl customProvider); message := None |}
      = Return direct ∧
    factory sampleFiat {| provider := Some (inr [customProvider]); message := None |}
      = Return wrapped ∧
    Zod.safeParse direct "custom" = Zod.Success "CUSTOM" ∧
    Zod.safeParse wrapped "custom" = Zod.Success "CUSTOM".
Proof.
  assert (Hw : within_max_length customProvider).
  { intros c Hc. cbn [customProvider getValidCodes] in Hc.
    repeat (apply elem_of_cons in Hc as [->|Hc]; [reflexivity|]).
    by apply elem_of_nil in Hc. }
  split; [exact ascii_toUpperCase_length_le|]. split; [exact Hw|].
  destruct (wrapping_accepts_more ascii_toUpperCase integral_toString sampleFiat
              customProvider None "custom" "CUSTOM" ascii_toUpperCase_length_le)
    as (direct & wrapped & Hd & Hwr & Hto & Hfrom).
  exists direct, wrapped. split; [exact Hd|]. split; [exact Hwr|].
  assert (Hdirect : Zod.safeParse direct "custom" = Zod.Success "CUSTOM").
  { change (Return (schema customProvider None) = Return direct) in Hd.
    injection Hd as <-. reflexivity. }
  split; [exact (Hfrom Hw (Hto Hdirect))|exact (Hto Hdirect)].
Defined.

Lemma longest_code_is_provider_bound_witness :
  sampleFiat ≠ [] ∧
  getMaxLength (Fiat_provider (new_FiatCurrencyProvider sampleFiat)) =
    code_length (longest_code sampleFiat).
Proof.
  assert (Hne : sampleFiat ≠ []) by discriminate.
  split; [exact Hne|]. exact (longest_code_is_provider_bound sampleFiat Hne).
Defined.

Lemma cumulative_count_counts_witness :
  (3 ≤ 4)%nat ∧
  (String.length (longest_code ["BTC"; "DOGE"; "ETH"]) ≤ 4)%nat ∧
  (cumulativeCount (cryptoLengthDistribution ["BTC"; "DOGE"; "ETH"]) 3 ≤
   cumulativeCount (cryptoLengthDistribution ["BTC"; "DOGE"; "ETH"]) 4)%nat ∧
  cumulativeCount (cryptoLengthDistribution ["BTC"; "DOGE"; "ETH"]) 4%nat =
    length ["BTC"; "DOGE"; "ETH"].
Proof.
  assert (H34 : (3 ≤ 4)%nat) by lia.
  assert (Hlong : (String.length (longest_code ["BTC"; "DOGE"; "ETH"]) ≤ 4)%nat)
    by (vm_compute; lia).
  split; [exact H34|]. split; [exact Hlong|]. split.
  - exact (proj1 (proj2 (cumulative_count_counts ["BTC"; "DOGE"; "ETH"] 3%nat)) 4%nat H34).
  - exact (proj2 (proj2 (cumulative_count_counts ["BTC"; "DOGE"; "ETH"] 4%nat)) Hlong).
Defined.

Lemma excluded_complements_kept_witness :
  (0 < 3)%nat ∧
  ∃ this,
    new_CryptocurrencyProvider ["BTC"; "DOGE"; "ETH"]
      (only_maxLength (Number.of_nat 3%nat)) = Return this ∧
    ∀ c, c ∈ excluded ["BTC"; "DOGE"; "ETH"] 3%nat ↔
         c ∈ ["BTC"; "DOGE"; "ETH"] ∧ c ∉ getValidCodes (Crypto_provider this).
Proof.
  assert (H3 : (0 < 3)%nat) by lia.
  split; [exact H3|].
  exact (proj2 (proj2 (excluded_complements_kept ["BTC"; "DOGE"; "ETH"] 3%nat)) H3).
Defined.

Lemma dynamic_provider_acceptance_witness :
  (∀ x, (String.length x ≤ String.length (ascii_toUpperCase x))%nat) ∧
  is_max_length (getValidCodes (Dynamic_provider {| dyn_currencies := ["USD"; "POINTS"] |}))
    (getMaxLength (Dynamic_provider {| dyn_currencies := ["USD"; "POINTS"] |})) ∧
  (Zod.safeParse
     (schema (Dynamic_provider {| dyn_currencies := ["USD"; "POINTS"] |}) None) "points"
     = Zod.Success "POINTS" ↔
   "points" ≠ "" ∧ ascii_toUpperCase "points" ∈ ["USD"; "POINTS"] ∧
   "POINTS" = ascii_toUpperCase "points").
Proof.
  split; [exact ascii_toUpperCase_length_le|].
  exact (dynamic_provider_acceptance ascii_toUpperCase integral_toString
           {| dyn_currencies := ["USD"; "POINTS"] |} None "points" "POINTS"
           ascii_toUpperCase_length_le).
Defined.

Lemma validated_provider_bound_witness :
  getValidCodes
    (Validated_provider {| val_currencies := ["usd"; "1INCH"];
                           val_startsWithLetter := true |}) = [] ∧
  getMaxLength
    (Validated_provider {| val_currencies := ["usd"; "1INCH"];
                           val_startsWithLetter := true |}) = Number.of_Z 0.
Proof.
  assert (Hnil : getValidCodes
                   (Validated_provider {| val_currencies := ["usd"; "1INCH"];
                                          val_startsWithLetter := true |}) = [])
    by reflexivity.
  split; [exact Hnil|].
  exact (proj1 (proj2 (validated_provider_bound
                         {| val_currencies := ["usd"; "1INCH"];
                            val_startsWithLetter := true |})) Hnil).
Defined.

Lemma percentage_one_keeps_all_witness :
  Number.compare (Number.of_Z 1) (Number.of_Z 1) = Some Eq ∧
  Z.of_nat (length (JsSet.of_list sampleCrypto)) < 2 ^ 53 ∧
  ∃ this,
    new_CryptocurrencyProvider sampleCrypto (only_percentage (Number.of_Z 1))
      = Return this ∧
    new_CryptocurrencyProvider sampleCrypto no_options = Return this ∧
    getValidCodes (Crypto_provider this) = JsSet.of_list sampleCrypto.
Proof.
  assert (Hlen : Z.of_nat (length (JsSet.of_list sampleCrypto)) < 2 ^ 53) by reflexivity.
  split; [reflexivity|]. split; [exact Hlen|].
  exact (percentage_one_keeps_all sampleCrypto (Number.of_Z 1) eq_refl Hlen).
Defined.

End FurtherInstances.
